(** * AnyLink gateway: target authorizer, TCP pool, framing, bridges, metrics

    A shallow embedding of the Go sources of [internal/server] and
    [internal/bridge], with the properties their specification states.

    Conventions.
    - A Go [string] is a byte sequence: it is a Rocq [string] (a list of
      8-bit [ascii]).  A [[]byte] is a [list byte].
    - [uint32], [int64] and [int] are [Z] with the wrap-around written out
      ([int] is the 64-bit [int] of the usual Go targets).
    - A Go map is a [gmap]; a slice used as a stack is a [list] whose top is
      its last element.
    - A goroutine's loop is a function from the results the environment
      hands to each iteration (a script) to the effects it performs (a
      trace) and the way it stops. *)

From Stdlib Require Import ZArith List String Ascii Bool Lia.
From Stdlib Require Import Init.Byte.
From Stdlib Require Strings.Byte.
From stdpp Require Import base option list gmap strings.

Import ListNotations.
Local Open Scope Z_scope.

(** ** Go's [strings] package: the functions [compileRules] calls *)

Module GoStrings.

(** [strings.Contains s sub] for a one-byte [sub]: the byte occurs in [s]. *)
Fixpoint ContainsByte (s : string) (b : ascii) : bool :=
  match s with
  | EmptyString => false
  | String c r => if Ascii.eqb c b then true else ContainsByte r b
  end.

(** [strings.ContainsAny s chars]: some byte of [chars] occurs in [s]
    (byte-wise, which is what Go does for ASCII [chars]). *)
Fixpoint ContainsAny (s chars : string) : bool :=
  match chars with
  | EmptyString => false
  | String c r => if ContainsByte s c then true else ContainsAny s r
  end.

(** [strings.HasPrefix]. *)
Fixpoint HasPrefix (s pre : string) {struct pre} : bool :=
  match pre, s with
  | EmptyString, _ => true
  | String _ _, EmptyString => false
  | String p pre', String c s' => if Ascii.eqb c p then HasPrefix s' pre' else false
  end.

(** [s[n:]], the whole of [s] gone when [n] exceeds its length. *)
Fixpoint drop_bytes (n : nat) (s : string) : string :=
  match n, s with
  | O, _ => s
  | S _, EmptyString => EmptyString
  | S n', String _ r => drop_bytes n' r
  end.

(** The scan of [strings.ReplaceAll s old new] for a non-empty [old]: the
    matches of [old] are found from left to right and do not overlap.  The
    search restarts after each match, on a string that is shorter, so
    [String.length s] steps are enough; [fuel] counts them. *)
Fixpoint replace_scan (fuel : nat) (s old new : string) : string :=
  match fuel with
  | O => s
  | S fuel' =>
      match s with
      | EmptyString => EmptyString
      | String c r =>
          if HasPrefix s old
          then new +:+ replace_scan fuel' (drop_bytes (String.length old) s) old new
          else String c (replace_scan fuel' r old new)
      end
  end.

(** [strings.ReplaceAll] with a non-empty [old] (the only call in the
    sources passes the two bytes backslash, star). *)
Definition ReplaceAll (s old new : string) : string :=
  replace_scan (String.length s) s old new.

End GoStrings.

(** ** Go's [regexp] package: [QuoteMeta], and the patterns [compileRules] builds *)

Module GoRegexp.

Definition backslash : ascii := "092"%char.

(** The bytes [regexp.QuoteMeta] escapes. *)
Definition specialBytes : string := String backslash ".+*?()|[]{}^$".

Definition special (b : ascii) : bool := GoStrings.ContainsByte specialBytes b.

(** [regexp.QuoteMeta]: a backslash before every special byte. *)
Fixpoint QuoteMeta (s : string) : string :=
  match s with
  | EmptyString => EmptyString
  | String c r =>
      if special c then String backslash (String c (QuoteMeta r))
      else String c (QuoteMeta r)
  end.

(** A compiled pattern of the shape [compileRules] produces: between the
    anchors, a sequence of literal bytes, [.] and [.*]. *)
Inductive atom : Type :=
  | Lit (c : ascii)
  | AnyChar
  | AnyStar.

Record Regexp : Type := mkRegexp { expr : string; prog : list atom }.

(** The body of a pattern, up to the closing [$]. [fuel] bounds the scan
    by the length of the text. *)
Fixpoint parse_body (fuel : nat) (s : string) : option (list atom) :=
  match fuel with
  | O => None
  | S fuel' =>
      match s with
      | EmptyString => None
      | String c r =>
          if Ascii.eqb c "$" then
            match r with EmptyString => Some [] | _ => None end
          else if Ascii.eqb c backslash then
            match r with
            | String e r' =>
                if special e then cons (Lit e) <$> parse_body fuel' r' else None
            | EmptyString => None
            end
          else if Ascii.eqb c "." then
            match r with
            | String "*" r' => cons AnyStar <$> parse_body fuel' r'
            | _ => cons AnyChar <$> parse_body fuel' r
            end
          else if special c then None
          else cons (Lit c) <$> parse_body fuel' r
      end
  end.

(** [regexp.Compile] on the anchored patterns of this fragment; [None] is
    the error result.  (Go's compiler accepts a much larger language, which
    [compileRules] never produces.) *)
Definition Compile (pattern : string) : option Regexp :=
  match pattern with
  | String "^" body =>
      mkRegexp pattern <$> parse_body (String.length body) body
  | _ => None
  end.

Definition newline : ascii := "010"%char.

(** Whole-text match of an atom sequence.  [.] matches any byte but a
    newline (no [s] flag), [.*] any run of such bytes. *)
Fixpoint match_atoms (p : list atom) (s : string) {struct p} : bool :=
  match p with
  | [] => match s with EmptyString => true | _ => false end
  | Lit c :: p' =>
      match s with
      | String d s' => Ascii.eqb c d && match_atoms p' s'
      | EmptyString => false
      end
  | AnyChar :: p' =>
      match s with
      | String d s' => negb (Ascii.eqb d newline) && match_atoms p' s'
      | EmptyString => false
      end
  | AnyStar :: p' =>
      (fix star (t : string) : bool :=
         match_atoms p' t ||
         match t with
         | String d t' => negb (Ascii.eqb d newline) && star t'
         | EmptyString => false
         end) s
  end.

(** The method [MatchString] of a compiled pattern: the pattern is anchored at both ends, so a
    match is a match of the whole text. *)
Definition MatchString (re : Regexp) (s : string) : bool :=
  match_atoms (prog re) s.

End GoRegexp.

(** ** Go's [net] package: what the authorizer uses *)

Module GoNet.

(** [bytealg.IndexByteString]: the first index of [b] in [s]. *)
Fixpoint IndexByte (s : string) (b : ascii) : option nat :=
  match s with
  | EmptyString => None
  | String c r => if Ascii.eqb c b then Some O else S <$> IndexByte r b
  end.

(** [bytealg.LastIndexByteString]: the last index of [b] in [s]. *)
Fixpoint LastIndexByte (s : string) (b : ascii) : option nat :=
  match s with
  | EmptyString => None
  | String c r =>
      match LastIndexByte r b with
      | Some i => Some (S i)
      | None => if Ascii.eqb c b then Some O else None
      end
  end.

(** [s[from:to]]. *)
Definition slice (s : string) (from to : nat) : string :=
  String.substring from (to - from) s.

(** [net.SplitHostPort]: host and port of ["host:port"], ["[host]:port"];
    [None] is the error result. *)
Definition SplitHostPort (hostport : string) : option (string * string) :=
  let len := String.length hostport in
  match LastIndexByte hostport ":" with
  | None => None (* missing port in address *)
  | Some i =>
      let bracketed :=
        match hostport with String "[" _ => true | _ => false end in
      let parsed : option (string * nat * nat) :=
        if bracketed then
          match IndexByte hostport "]" with
          | None => None (* missing ']' in address *)
          | Some e =>
              if Nat.eqb (e + 1) len then None (* missing port *)
              else if Nat.eqb (e + 1) i then Some (slice hostport 1 e, 1%nat, (e + 1)%nat)
              else None (* too many colons, or missing port *)
          end
        else
          let host := slice hostport 0 i in
          match IndexByte host ":" with
          | Some _ => None (* too many colons in address *)
          | None => Some (host, 0%nat, 0%nat)
          end in
      match parsed with
      | None => None
      | Some (host, j, k) =>
          match IndexByte (slice hostport j len) "[" with
          | Some _ => None (* unexpected '[' in address *)
          | None =>
              match IndexByte (slice hostport k len) "]" with
              | Some _ => None (* unexpected ']' in address *)
              | None => Some (host, slice hostport (i + 1) len)
              end
          end
      end
  end.

(** The IP side of the package, as the authorizer sees it: textual
    addresses and networks are parsed ([None] is the error or [nil]
    result), and a network tells whether it contains an address. *)
Class IPLib : Type := {
  IP : Type;
  IPNet : Type;
  ParseIP : string -> option IP;
  ParseCIDR : string -> option IPNet;
  Contains : IPNet -> IP -> bool
}.

End GoNet.

(** ** Target validation ([internal/server/server.go]) *)

Module Authorizer.

Import GoStrings GoRegexp GoNet.

Section Rules.

Context `{Net : IPLib}.

Record TargetRule : Type := mkRule {
  Raw : string;
  Regex : option Regexp;
  CIDRNet : option IPNet;
  IsDomain : bool
}.

(** The pattern [compileRules] hands to [regexp.Compile] for a wildcard
    entry [t]: the quoted entry between anchors, then every quoted star
    replaced. *)
Definition wildcardPattern (t : string) : string :=
  let pattern := "^" +:+ QuoteMeta t +:+ "$" in
  ReplaceAll pattern (String backslash "*") ".*".

(** The body of the loop of [compileRules]: the rule of one entry, [None]
    when the entry does not parse. *)
Definition compileRule (t : string) : option TargetRule :=
  if ContainsByte t "/" then (* CIDR *)
    match ParseCIDR t with
    | None => None
    | Some cidrNet => Some (mkRule t None (Some cidrNet) false)
    end
  else if ContainsAny t "*?" then (* wildcard domain -> regex *)
    match Compile (wildcardPattern t) with
    | None => None
    | Some reg => Some (mkRule t (Some reg) None true)
    end
  else if ContainsByte t ":" then (* IP:Port exact match *)
    Some (mkRule t None None false)
  else (* domain exact *)
    Some (mkRule t None None true).

(** [compileRules]: the rules in the order of the entries, or the first
    error ([None]). *)
Fixpoint compileRules (entries : list string) : option (list TargetRule) :=
  match entries with
  | [] => Some []
  | t :: entries' =>
      match compileRule t with
      | None => None
      | Some r => cons r <$> compileRules entries'
      end
  end.

(** One turn of the loop of [isAllowedEnhanced]: does rule [r] let the
    target through? *)
Definition ruleAllows (r : TargetRule) (host target : string) : bool :=
  match CIDRNet r with
  | Some net =>
      match ParseIP host with
      | Some ip => Contains net ip
      | None => false
      end
  | None =>
      match Regex r with
      | Some re => MatchString re target
      | None =>
          if IsDomain r then String.eqb host (Raw r)
          else String.eqb target (Raw r)
      end
  end.

(** [isAllowedEnhanced]: an empty rule list allows every target; otherwise
    the first rule that allows the target decides. *)
Definition isAllowedEnhanced (rules : list TargetRule) (target : string) : bool :=
  match rules with
  | [] => true
  | _ =>
      let host := match SplitHostPort target with
                  | Some (host, _) => host
                  | None => EmptyString
                  end in
      existsb (fun r => ruleAllows r host target) rules
  end.

End Rules.

End Authorizer.

(** ** An instance of the IP interface: dotted-quad IPv4

    The textual IPv4 forms of [net.ParseIP] and [net.ParseCIDR]
    (["10.0.0.1"], ["10.0.0.0/8"]).  An address is its 32-bit value, a
    network its base address and prefix length.  IPv6 text is outside this
    instance; the statements below that hold for every [IPLib] do not
    depend on it. *)

Module IPv4.

Import GoNet.

Definition digit (c : ascii) : option Z :=
  let n := Z.of_nat (nat_of_ascii c) in
  if (48 <=? n) && (n <=? 57) then Some (n - 48) else None.

Fixpoint decimal (acc : Z) (s : string) : option Z :=
  match s with
  | EmptyString => Some acc
  | String c r =>
      match digit c with
      | Some d => decimal (10 * acc + d) r
      | None => None
      end
  end.

(** The fields of [s] between the separators [sep]. *)
Fixpoint fields (sep : ascii) (s : string) : list string :=
  match s with
  | EmptyString => [EmptyString]
  | String c r =>
      if Ascii.eqb c sep then EmptyString :: fields sep r
      else match fields sep r with
           | f :: fs => String c f :: fs
           | [] => [String c EmptyString]
           end
  end.

(** One field of a dotted quad: one to three digits, no leading zero, at
    most 255. *)
Definition octet (f : string) : option Z :=
  match f with
  | EmptyString => None
  | String "0" (String _ _) => None
  | _ =>
      if Nat.leb (String.length f) 3 then
        match decimal 0 f with
        | Some v => if v <=? 255 then Some v else None
        | None => None
        end
      else None
  end.

Definition parseQuad (s : string) : option Z :=
  match fields "." s with
  | [a; b; c; d] =>
      match octet a, octet b, octet c, octet d with
      | Some a, Some b, Some c, Some d => Some (((a * 256 + b) * 256 + c) * 256 + d)
      | _, _, _, _ => None
      end
  | _ => None
  end.

(** ["a.b.c.d/n"] with [0 <= n <= 32]: the masked base address and [n]. *)
Definition parseCIDR (s : string) : option (Z * Z) :=
  match IndexByte s "/" with
  | None => None
  | Some i =>
      let addr := slice s 0 i in
      let mask := slice s (i + 1) (String.length s) in
      match parseQuad addr, mask with
      | Some ip, String _ _ =>
          match decimal 0 mask with
          | Some n =>
              if n <=? 32
              then Some (Z.shiftl (Z.shiftr ip (32 - n)) (32 - n), n)
              else None
          | None => None
          end
      | _, _ => None
      end
  end.

Definition contains (net : Z * Z) (ip : Z) : bool :=
  let '(base, n) := net in
  Z.shiftr ip (32 - n) =? Z.shiftr base (32 - n).

#[global] Instance ipv4 : IPLib := {|
  IP := Z;
  IPNet := Z * Z;
  ParseIP := parseQuad;
  ParseCIDR := parseCIDR;
  Contains := contains
|}.

End IPv4.

(** ** Facts about rule compilation and evaluation *)

Module AuthorizerFacts.

Import GoStrings GoRegexp GoNet Authorizer.

(** What [wildcardPattern] puts between the anchors, byte by byte: a star
    becomes [.*], any other special byte (the question mark among them) is
    escaped and so stands for itself, every other byte stands for itself. *)
Fixpoint globBody (t : string) : string :=
  match t with
  | EmptyString => EmptyString
  | String c r =>
      if Ascii.eqb c "*" then String "." (String "*" (globBody r))
      else if special c then String backslash (String c (globBody r))
      else String c (globBody r)
  end.

Lemma special_star : special "*" = true.
Proof. reflexivity. Qed.

Lemma special_backslash : special backslash = true.
Proof. reflexivity. Qed.

Lemma HasPrefix_quoted_star (a b : ascii) (r : string) :
  HasPrefix (String a (String b r)) (String backslash "*")
  = Ascii.eqb a backslash && Ascii.eqb b "*".
Proof.
  simpl. destruct (Ascii.eqb a backslash); [|reflexivity].
  destruct (Ascii.eqb b "*"); reflexivity.
Qed.

(** The quoted text never starts with a bare star. *)
Lemma quoted_head_not_star (t : string) :
  exists c r, QuoteMeta t +:+ "$" = String c r /\ Ascii.eqb c "*" = false.
Proof.
  destruct t as [|c t]; simpl.
  - eexists _, _; split; reflexivity.
  - destruct (special c) eqn:Hs; simpl.
    + eexists _, _; split; reflexivity.
    + eexists _, _; split; [reflexivity|].
      destruct (Ascii.eqb_spec c "*") as [->|]; [|reflexivity].
      rewrite special_star in Hs. discriminate.
Qed.

Lemma length_quoted_end (t : string) :
  (String.length t < String.length (QuoteMeta t +:+ "$"))%nat.
Proof.
  induction t as [|c t IH]; simpl; [lia|].
  destruct (special c); simpl; lia.
Qed.

Lemma replace_scan_S (fuel : nat) (c : ascii) (r old new : string) :
  replace_scan (S fuel) (String c r) old new
  = if HasPrefix (String c r) old
    then new +:+ replace_scan fuel (drop_bytes (String.length old) (String c r)) old new
    else String c (replace_scan fuel r old new).
Proof. reflexivity. Qed.

Lemma append_cons (c : ascii) (s t : string) :
  String c s +:+ t = String c (s +:+ t).
Proof. reflexivity. Qed.

Lemma replace_scan_quoted (t : string) : forall fuel,
  (String.length (QuoteMeta t +:+ "$") <= fuel)%nat ->
  replace_scan fuel (QuoteMeta t +:+ "$") (String backslash "*") ".*"
  = globBody t +:+ "$".
Proof.
  induction t as [|c t IH]; intros fuel Hf.
  - destruct fuel as [|[|fuel]]; simpl in *; try lia; reflexivity.
  - destruct (quoted_head_not_star t) as (h & r & Hq & Hh).
    cbn [QuoteMeta globBody] in *.
    destruct (special c) eqn:Hs.
    + rewrite !append_cons in *. cbn [String.length] in Hf.
      destruct fuel as [|[|fuel]]; try lia.
      rewrite replace_scan_S, HasPrefix_quoted_star, Ascii.eqb_refl.
      cbn [andb]. destruct (Ascii.eqb c "*") eqn:Hc.
      * cbn [drop_bytes String.length]. rewrite IH by lia. reflexivity.
      * rewrite replace_scan_S, Hq, HasPrefix_quoted_star, Hh, andb_false_r.
        rewrite <- Hq, IH by lia. rewrite !append_cons. reflexivity.
    + assert (Hb : Ascii.eqb c backslash = false).
      { destruct (Ascii.eqb_spec c backslash) as [->|]; [|reflexivity].
        rewrite special_backslash in Hs. discriminate. }
      assert (Hc : Ascii.eqb c "*" = false).
      { destruct (Ascii.eqb_spec c "*") as [->|]; [|reflexivity].
        rewrite special_star in Hs. discriminate. }
      rewrite !append_cons in *. cbn [String.length] in Hf.
      destruct fuel as [|fuel]; try lia.
      rewrite replace_scan_S, Hq, HasPrefix_quoted_star, Hb. cbn [andb].
      rewrite <- Hq, Hc, IH by lia. reflexivity.
Qed.

(** The pattern of a wildcard entry, in closed form. *)
Lemma wildcardPattern_globBody (t : string) :
  wildcardPattern t = "^" +:+ globBody t +:+ "$".
Proof.
  unfold wildcardPattern, ReplaceAll.
  rewrite !append_cons. cbn [String.length].
  rewrite replace_scan_S. cbn [HasPrefix Ascii.eqb Bool.eqb].
  change ("" +:+ ?s) with s.
  rewrite replace_scan_quoted by lia. reflexivity.
Qed.

(** The compiled form of a wildcard entry: a star is [.*], every other
    byte of the entry is a literal. *)
Definition globAtoms (t : string) : list atom :=
  (fun c : ascii => if Ascii.eqb c "*" then AnyStar else Lit c)
    <$> list_ascii_of_string t.

Lemma parse_body_globBody (t : string) : forall fuel,
  (String.length (globBody t) < fuel)%nat ->
  parse_body fuel (globBody t +:+ "$") = Some (globAtoms t).
Proof.
  induction t as [|c t IH]; intros fuel Hf.
  - destruct fuel; [simpl in Hf; lia | reflexivity].
  - cbn [globBody] in *. unfold globAtoms. cbn [list_ascii_of_string fmap list_fmap].
    fold (globAtoms t).
    destruct (Ascii.eqb c "*") eqn:Hc.
    + cbn [String.length] in Hf. destruct fuel as [|fuel]; [lia|].
      rewrite !append_cons. cbn. rewrite IH by lia. reflexivity.
    + destruct (special c) eqn:Hs.
      * cbn [String.length] in Hf. destruct fuel as [|fuel]; [lia|].
        rewrite !append_cons. cbn [parse_body].
        change (Ascii.eqb backslash "$") with false.
        rewrite Ascii.eqb_refl, Hs, IH by lia. reflexivity.
      * cbn [String.length] in Hf. destruct fuel as [|fuel]; [lia|].
        rewrite !append_cons. cbn [parse_body]. rewrite Hs.
        assert (Hn : forall d, special d = true -> Ascii.eqb c d = false).
        { intros d Hd. destruct (Ascii.eqb_spec c d) as [->|]; congruence. }
        rewrite (Hn "$"%char), (Hn backslash), (Hn "."%char), IH by (reflexivity || lia).
        reflexivity.
Qed.

(** [regexp.Compile] never fails on the pattern of a wildcard entry. *)
Lemma Compile_wildcardPattern (t : string) :
  Compile (wildcardPattern t)
  = Some (mkRegexp (wildcardPattern t) (globAtoms t)).
Proof.
  rewrite wildcardPattern_globBody at 1.
  rewrite append_cons. change ("" +:+ ?s) with s. unfold Compile.
  rewrite parse_body_globBody; [|].
  - rewrite wildcardPattern_globBody. reflexivity.
  - clear. induction (globBody t) as [|c b IH]; simpl; lia.
Qed.

(** How an allow-list and a target are judged end to end ([None]: the
    list does not compile). *)
Definition judge `{Net : IPLib} (entries : list string) (target : string) : option bool :=
  (fun rules => isAllowedEnhanced rules target) <$> compileRules entries.

(** Every star of a wildcard entry matches any run of bytes: with the
    instance at hand, the entry ["*.example.com:443"] lets a sub-domain
    through and holds the port. *)
Example wildcard_star_matches :
  judge ["*.example.com:443"] "api.example.com:443" = Some true
  /\ judge ["*.example.com:443"] "api.example.com:80" = Some false.
Proof. split; reflexivity. Qed.

(** C3, on the code: [compileRules] replaces the quoted star only.  For the
    entry ["db?.internal:5432"] it compiles a pattern in which the question
    mark is escaped, hence literal: the target ["db1.internal:5432"] is
    denied and only the entry's own text is allowed, whereas the pattern
    the specification describes, with [.] for the question mark, matches
    that target. *)
Theorem C3_question_mark_is_literal :
  wildcardPattern "db?.internal:5432" = "^db\?\.internal:5432$"
  /\ (prog <$> Compile (wildcardPattern "db?.internal:5432"))
     = Some [Lit "d"; Lit "b"; Lit "?"; Lit "."; Lit "i"; Lit "n"; Lit "t";
             Lit "e"; Lit "r"; Lit "n"; Lit "a"; Lit "l"; Lit ":"; Lit "5";
             Lit "4"; Lit "3"; Lit "2"]%char
  /\ judge ["db?.internal:5432"] "db1.internal:5432" = Some false
  /\ judge ["db?.internal:5432"] "db?.internal:5432" = Some true
  /\ ((fun re => MatchString re "db1.internal:5432")
       <$> Compile "^db.\.internal:5432$") = Some true.
Proof. repeat split; reflexivity. Qed.

Section Monotone.

Context `{Net : IPLib}.

Lemma isAllowedEnhanced_cons (r : TargetRule) (rules : list TargetRule) (target : string) :
  isAllowedEnhanced (r :: rules) target
  = existsb
      (fun r => ruleAllows r
                  match SplitHostPort target with
                  | Some (host, _) => host
                  | None => EmptyString
                  end target)
      (r :: rules).
Proof. reflexivity. Qed.

(** C7, amended: appending rules to a non-empty rule list never revokes a
    target the list allows. *)
Theorem C7_more_rules_keep_allowed
    (rs rs' : list TargetRule) (t : string) :
  rs <> [] ->
  isAllowedEnhanced rs t = true ->
  isAllowedEnhanced (rs ++ rs') t = true.
Proof.
  destruct rs as [|r rs]; [congruence|]. intros _.
  rewrite <- app_comm_cons, !isAllowedEnhanced_cons.
  rewrite app_comm_cons, existsb_app. intros ->. reflexivity.
Qed.

(** An empty rule list allows every target. *)
Lemma isAllowedEnhanced_nil (t : string) : isAllowedEnhanced [] t = true.
Proof. reflexivity. Qed.

(** A list made of one exact rule allows its own text only; no library
    call takes part in the decision. *)
Lemma isAllowedEnhanced_exact (raw t : string) :
  isAllowedEnhanced [mkRule raw None None false] t = String.eqb t raw.
Proof. unfold isAllowedEnhanced, ruleAllows. simpl. apply orb_false_r. Qed.

End Monotone.

(** C7 at a concrete input: the list compiled from a CIDR entry allows
    ["10.1.2.3:80"], and still does with an exact rule appended. *)
Lemma C7_more_rules_keep_allowed_witness :
  isAllowedEnhanced
    ([@mkRule IPv4.ipv4 "10.0.0.0/8" None (Some (167772160, 8)) false]
       ++ [mkRule "127.0.0.1:9000" None None false]) "10.1.2.3:80" = true.
Proof.
  apply (C7_more_rules_keep_allowed
           [@mkRule IPv4.ipv4 "10.0.0.0/8" None (Some (167772160, 8)) false]
           [mkRule "127.0.0.1:9000" None None false] "10.1.2.3:80").
  - discriminate.
  - reflexivity.
Defined.

(** C7 as stated fails on the empty rule list: it allows ["10.0.0.5:22"],
    and the list with the rule of ["127.0.0.1:9000"] appended does not. *)
Lemma C7_empty_list_counterexample :
  isAllowedEnhanced [] "10.0.0.5:22" = true
  /\ compileRules ["127.0.0.1:9000"] = Some [mkRule "127.0.0.1:9000" None None false]
  /\ isAllowedEnhanced ([] ++ [mkRule "127.0.0.1:9000" None None false]) "10.0.0.5:22"
     = false.
Proof. repeat split; reflexivity. Qed.

End AuthorizerFacts.

(** ** The outbound TCP pool ([bridge.TCPPool]) *)

Module Pool.

Section WithConn.

(** [net.Conn]: the pool only stores and hands out connections. *)
Context {Conn : Type}.

Record TCPPool : Type := mkPool {
  conns : gmap string (list Conn);    (* pooled connections per backend *)
  backends : gmap string (list string); (* logical target -> backend addresses *)
  counters : gmap string Z;           (* round-robin counter cell per logical target *)
  maxSize : Z
}.

Definition NewTCPPool (max : Z) : TCPPool := mkPool ∅ ∅ ∅ max.

(** [AddTargets]: the backends of a logical target, and a fresh counter
    cell holding zero. *)
Definition AddTargets (p : TCPPool) (logical : string) (targets : list string) : TCPPool :=
  mkPool (conns p) (<[logical := targets]> (backends p))
         (<[logical := 0]> (counters p)) (maxSize p).

(** [atomic.AddUint32 addr 1]: the cell after the call and the value
    returned, which is the new value of the cell. *)
Definition AddUint32_1 (old : Z) : Z := (old + 1) mod 2 ^ 32.

(** [p.conns[key]]: a missing key reads as the nil slice. *)
Definition idle (p : TCPPool) (key : string) : list Conn :=
  default [] (conns p !! key).

(** What [Get] returns.  [Pooled] and [Dial] carry the backend that was
    picked; [Dial backend] stands for the result of
    [net.DialTimeout "tcp" backend 5s], performed after the lock is
    released.  [Panic] is a run-time panic (a nil counter cell), which no
    pool built with [AddTargets] reaches. *)
Inductive GetResult : Type :=
  | NoBackends
  | Panic
  | Pooled (backend : string) (conn : Conn)
  | Dial (backend : string).

Definition Get (p : TCPPool) (logical : string) : GetResult * TCPPool :=
  match backends p !! logical with
  | None => (NoBackends, p)
  | Some [] => (NoBackends, p)
  | Some bs =>
      match counters p !! logical with
      | None => (Panic, p)
      | Some c =>
          (* pick backend using round-robin *)
          let idx := AddUint32_1 c in
          let p1 := mkPool (conns p) (backends p)
                           (<[logical := idx]> (counters p)) (maxSize p) in
          match bs !! Z.to_nat (idx mod Z.of_nat (length bs)) with
          | None => (Panic, p1)
          | Some backend =>
              (* check pool for existing connection *)
              let cs := idle p1 backend in
              match last cs with
              | Some conn =>
                  (Pooled backend conn,
                   mkPool (<[backend := removelast cs]> (conns p1)) (backends p1)
                          (counters p1) (maxSize p1))
              | None => (Dial backend, p1)
              end
          end
      end
  end.

(** [Put]: the pool afterwards, and whether [conn.Close] was called. *)
Definition Put (p : TCPPool) (target : string) (conn : Conn) : TCPPool * bool :=
  if Z.of_nat (length (idle p target)) >=? maxSize p then (p, true)
  else (mkPool (<[target := idle p target ++ [conn]]> (conns p)) (backends p)
               (counters p) (maxSize p), false).

(** The backend a call of [Get] picked, if it picked one. *)
Definition picked (r : GetResult) : option string :=
  match r with
  | Pooled backend _ | Dial backend => Some backend
  | NoBackends | Panic => None
  end.

End WithConn.

Arguments TCPPool : clear implicits.
Arguments GetResult : clear implicits.

End Pool.

Module PoolFacts.

Import Pool.

Section WithConn.

Context {Conn : Type}.

Implicit Types (p : TCPPool Conn) (c : Z).

Lemma AddUint32_1_range c : 0 <= AddUint32_1 c < 2 ^ 32.
Proof. unfold AddUint32_1. apply Z.mod_pos_bound. lia. Qed.

(** C4, amended: with [n > 0] backends and the counter at [c], [Get] picks
    the backend at index [((c + 1) mod 2^32) mod n], the value the counter
    holds after the increment, and leaves the counter at that value. *)
Theorem C4_get_round_robin p (logical : string) (bs : list string) c :
  backends p !! logical = Some bs ->
  bs <> [] ->
  counters p !! logical = Some c ->
  exists backend,
    bs !! Z.to_nat (((c + 1) mod 2 ^ 32) mod Z.of_nat (length bs)) = Some backend
    /\ picked (Get p logical).1 = Some backend
    /\ counters (Get p logical).2 !! logical = Some ((c + 1) mod 2 ^ 32).
Proof.
  intros Hb Hne Hc.
  pose proof (AddUint32_1_range c) as Hr. unfold AddUint32_1 in Hr.
  assert (Hlt : (Z.to_nat (((c + 1) mod 2 ^ 32) mod Z.of_nat (length bs)) < length bs)%nat).
  { destruct bs as [|b bs]; [congruence|].
    pose proof (Z.mod_pos_bound ((c + 1) mod 2 ^ 32) (Z.of_nat (length (b :: bs)))) as Hm.
    simpl length in *. lia. }
  destruct (lookup_lt_is_Some_2 bs _ Hlt) as [backend Hbk].
  exists backend. split; [exact Hbk|].
  unfold Get. rewrite Hb, Hc. unfold AddUint32_1.
  destruct bs as [|b bs]; [congruence|]. rewrite Hbk.
  destruct (last _); simpl; rewrite lookup_insert_eq; auto.
Qed.

(** What [Put] does with the stack of its key. *)
Lemma Put_below p (target : string) (conn : Conn) :
  Z.of_nat (length (idle p target)) < maxSize p ->
  Put p target conn
  = (mkPool (<[target := idle p target ++ [conn]]> (conns p)) (backends p)
            (counters p) (maxSize p), false).
Proof.
  intros H. unfold Put.
  destruct (Z.geb_spec (Z.of_nat (length (idle p target))) (maxSize p)); [lia | reflexivity].
Qed.

Lemma Put_full p (target : string) (conn : Conn) :
  maxSize p <= Z.of_nat (length (idle p target)) ->
  Put p target conn = (p, true).
Proof.
  intros H. unfold Put.
  destruct (Z.geb_spec (Z.of_nat (length (idle p target))) (maxSize p)); [reflexivity | lia].
Qed.

Lemma idle_insert (cs : gmap string (list Conn)) bk ct mx (key : string) (l : list Conn) :
  idle (mkPool (<[key := l]> cs) bk ct mx) key = l.
Proof. unfold idle. simpl. rewrite lookup_insert_eq. reflexivity. Qed.

Lemma idle_insert_ne (cs : gmap string (list Conn)) bk ct mx (key key' : string) (l : list Conn) :
  key <> key' ->
  idle (mkPool (<[key := l]> cs) bk ct mx) key' = idle (mkPool cs bk ct mx) key'.
Proof. intros H. unfold idle. simpl. rewrite lookup_insert_ne by exact H. reflexivity. Qed.

(** The effect of [Put] on the stack of its key, whatever the pool. *)
Lemma Put_stack p (target : string) (conn : Conn) :
  (idle (Put p target conn).1 target = idle p target ++ [conn]
   <-> Z.of_nat (length (idle p target)) < maxSize p)
  /\ ((Put p target conn).2 = true
      <-> ~ Z.of_nat (length (idle p target)) < maxSize p)
  /\ ((Put p target conn).2 = true -> (Put p target conn).1 = p)
  /\ (length (idle (Put p target conn).1 target) = S (length (idle p target))
      <-> Z.of_nat (length (idle p target)) < maxSize p)
  /\ (forall key, key <> target ->
        idle (Put p target conn).1 key = idle p key).
Proof.
  destruct (Z.lt_ge_cases (Z.of_nat (length (idle p target))) (maxSize p)) as [Hlt|Hge].
  - rewrite (Put_below _ _ _ Hlt). cbn [fst snd]. rewrite idle_insert.
    rewrite length_app. cbn [length].
    repeat split; intros; try tauto; try lia; try discriminate.
    destruct p; apply idle_insert_ne; congruence.
  - rewrite (Put_full _ _ _ Hge). cbn [fst snd].
    repeat split; intros; try tauto; try lia.
    apply (f_equal length) in H. rewrite length_app in H. cbn [length] in H. lia.
Qed.

(** A pooled connection handed out by [Get] was the top of the stack of
    the picked backend, and is no longer on it. *)
Lemma Get_pooled p (logical backend : string) (conn : Conn) (p1 : TCPPool Conn) :
  Get p logical = (Pooled backend conn, p1) ->
  idle p backend = idle p1 backend ++ [conn] /\ maxSize p1 = maxSize p.
Proof.
  unfold Get. destruct (backends p !! logical) as [[|b0 bs]|]; try discriminate.
  destruct (counters p !! logical) as [c|]; try discriminate.
  destruct (_ !! _) as [bk|]; try discriminate.
  destruct (last _) as [got|] eqn:Hlast; try discriminate.
  intros [= -> -> <-]. rewrite idle_insert. cbn [maxSize].
  apply last_Some in Hlast as [l' Hl']. unfold idle in Hl' |- *. cbn [conns] in *.
  rewrite Hl', removelast_last. auto.
Qed.

(** C5: [Put] pushes the connection on the stack of its key exactly when
    the stack holds fewer than [maxSize] connections, and otherwise closes
    it and leaves the pool as it was; so after a [Get], whether it popped a
    pooled connection or had one dialed, putting the connection back at the
    picked backend makes that stack one longer exactly when it held fewer
    than [maxSize] connections. *)
Theorem C5_put_bounded p (target logical : string) (conn : Conn) :
  (idle (Put p target conn).1 target = idle p target ++ [conn]
   <-> Z.of_nat (length (idle p target)) < maxSize p)
  /\ ((Put p target conn).2 = true /\ (Put p target conn).1 = p
      <-> ~ Z.of_nat (length (idle p target)) < maxSize p)
  /\ match Get p logical with
     | (Pooled backend got, p1) =>
         length (idle (Put p1 backend got).1 backend) = S (length (idle p1 backend))
         <-> Z.of_nat (length (idle p1 backend)) < maxSize p1
     | (Dial backend, p1) =>
         forall dialed : Conn,
           length (idle (Put p1 backend dialed).1 backend) = S (length (idle p1 backend))
           <-> Z.of_nat (length (idle p1 backend)) < maxSize p1
     | (_, _) => True
     end.
Proof.
  pose proof (Put_stack p target conn) as (H1 & H2 & H3 & _).
  split; [exact H1|]. split; [tauto|].
  destruct (Get p logical) as [[| |backend got|backend] p1]; try exact I.
  - apply (Put_stack p1 backend got).
  - intros dialed. apply (Put_stack p1 backend dialed).
Qed.

End WithConn.

(** A pool with one logical target and two backends, its counter at 0. *)
Definition two_backends : TCPPool nat :=
  AddTargets (NewTCPPool 16) "svc" ["10.0.0.1:80"; "10.0.0.2:80"].

(** C4 at a concrete input: the first [Get] on [two_backends]. *)
Lemma C4_get_round_robin_witness :
  exists backend,
    ["10.0.0.1:80"; "10.0.0.2:80"]
      !! Z.to_nat (((0 + 1) mod 2 ^ 32) mod Z.of_nat (length ["10.0.0.1:80"; "10.0.0.2:80"]))
    = Some backend
    /\ picked (Get two_backends "svc").1 = Some backend
    /\ counters (Get two_backends "svc").2 !! "svc" = Some ((0 + 1) mod 2 ^ 32).
Proof.
  apply (C4_get_round_robin two_backends "svc" ["10.0.0.1:80"; "10.0.0.2:80"] 0).
  - reflexivity.
  - discriminate.
  - reflexivity.
Defined.

(** C4 as stated fails: with the counter at 0 and two backends, the old
    counter value selects index [0 mod 2], the first backend, while [Get]
    picks the second. *)
Lemma C4_old_value_counterexample :
  counters two_backends !! "svc" = Some 0
  /\ backends two_backends !! "svc" = Some ["10.0.0.1:80"; "10.0.0.2:80"]
  /\ ["10.0.0.1:80"; "10.0.0.2:80"] !! Z.to_nat (0 mod 2) = Some "10.0.0.1:80"
  /\ picked (Get two_backends "svc").1 = Some "10.0.0.2:80"
  /\ counters (Get two_backends "svc").2 !! "svc" = Some 1.
Proof. repeat split; reflexivity. Qed.

(** The counter wraps at [2^32]. *)
Example counter_wraps : AddUint32_1 (2 ^ 32 - 1) = 0.
Proof. reflexivity. Qed.

(** Successive calls walk the backends in turn, starting with the second. *)
Example round_robin_walk :
  let '(r1, p1) := Get two_backends "svc" in
  let '(r2, p2) := Get p1 "svc" in
  let '(r3, _) := Get p2 "svc" in
  (r1, r2, r3) = (Dial "10.0.0.2:80", Dial "10.0.0.1:80", Dial "10.0.0.2:80").
Proof. reflexivity. Qed.

(** A pooled connection is popped by [Get] and pushed back by [Put]. *)
Example get_put_restores :
  let p := (Put (AddTargets (NewTCPPool 1) "svc" ["10.0.0.1:80"]) "10.0.0.1:80" 7%nat).1 in
  let '(r, p1) := Get p "svc" in
  r = Pooled "10.0.0.1:80" 7%nat
  /\ idle p1 "10.0.0.1:80" = []
  /\ idle (Put p1 "10.0.0.1:80" 7%nat).1 "10.0.0.1:80" = [7%nat]
  /\ Put (Put p1 "10.0.0.1:80" 7%nat).1 "10.0.0.1:80" 8%nat
     = ((Put p1 "10.0.0.1:80" 7%nat).1, true).
Proof. repeat split; reflexivity. Qed.

End PoolFacts.


(** ** WebSocket framing ([bridge.writeWSFrame], [bridge.readWSFrame]) *)

Module Frame.

(** [byte(v)]: the low eight bits. *)
Definition byte_of_Z (v : Z) : byte :=
  default x00 (Strings.Byte.of_N (Z.to_N (v mod 256))).

Definition Z_of_byte (b : byte) : Z := Z.of_N (Strings.Byte.to_N b).

(** [uint32(n)] of an [int]. *)
Definition uint32 (n : Z) : Z := n mod 2 ^ 32.

(** [binary.BigEndian.PutUint32]: the four bytes written. *)
Definition PutUint32 (v : Z) : list byte :=
  [byte_of_Z (Z.shiftr v 24); byte_of_Z (Z.shiftr v 16);
   byte_of_Z (Z.shiftr v 8); byte_of_Z v].

(** [binary.BigEndian.Uint32] of a four-byte slice (a shorter slice makes
    Go panic; the sources pass four bytes). *)
Definition Uint32 (b : list byte) : Z :=
  match b with
  | [b0; b1; b2; b3] =>
      Z.lor (Z.lor (Z.lor (Z_of_byte b3) (Z.shiftl (Z_of_byte b2) 8))
                   (Z.shiftl (Z_of_byte b1) 16))
            (Z.shiftl (Z_of_byte b0) 24)
  | _ => 0
  end.

(** [writeWSFrame]: the binary message handed to [ws.WriteMessage],
    [[streamID(4B)][len(4B)][payload]]. *)
Definition writeWSFrame (streamID : Z) (data : list byte) : list byte :=
  PutUint32 streamID ++ PutUint32 (uint32 (Z.of_nat (length data))) ++ data.

Inductive ioerr : Type := EOF | ErrUnexpectedEOF.

(** [io.ReadFull r buf] on a reader holding the bytes [r], with a fresh
    buffer of [n] bytes: the buffer afterwards, the bytes left in the
    reader, and the error. *)
Definition ReadFull (r : list byte) (n : nat) : list byte * list byte * option ioerr :=
  if Nat.leb n (length r) then (take n r, drop n r, None)
  else (r ++ replicate (n - length r) x00, [],
        Some (match r with [] => EOF | _ => ErrUnexpectedEOF end)).

(** [readWSFrame]: the named results [streamID], [payload], [err]. *)
Definition readWSFrame (r : list byte) : Z * list byte * option ioerr :=
  let '(header, r, err) := ReadFull r 8 in
  match err with
  | Some e => (0, [], Some e)
  | None =>
      let streamID := Uint32 (take 4 header) in
      let length := Uint32 (drop 4 header) in
      let '(payload, _, err) := ReadFull r (Z.to_nat length) in
      (streamID, payload, err)
  end.

End Frame.

Module FrameFacts.

Import Frame.

Lemma Z_of_byte_of_Z (v : Z) : Z_of_byte (byte_of_Z v) = v mod 256.
Proof.
  unfold Z_of_byte, byte_of_Z.
  pose proof (Z.mod_pos_bound v 256 ltac:(lia)) as Hb.
  destruct (Strings.Byte.of_N (Z.to_N (v mod 256))) as [b|] eqn:Hof.
  - apply Strings.Byte.to_of_N in Hof. simpl. rewrite Hof. lia.
  - apply Strings.Byte.of_N_None_iff in Hof. lia.
Qed.

Lemma big_endian_bits (v : Z) :
  0 <= v < 2 ^ 32 ->
  Z.lor (Z.lor (Z.lor (v mod 256) (Z.shiftl (Z.shiftr v 8 mod 256) 8))
               (Z.shiftl (Z.shiftr v 16 mod 256) 16))
        (Z.shiftl (Z.shiftr v 24 mod 256) 24) = v.
Proof.
  intros Hv. apply Z.bits_inj'. intros n Hn.
  assert (Hhi : 32 <= n -> Z.testbit v n = false).
  { intros H. rewrite <- (Z.mod_small v (2 ^ 32)) by lia.
    apply Z.mod_pow2_bits_high. lia. }
  change 256 with (2 ^ 8).
  rewrite !Z.lor_spec, !Z.shiftl_spec, !Z.testbit_mod_pow2 by lia.
  destruct (Z.ltb_spec n 8); [|destruct (Z.ltb_spec (n - 8) 8);
     [|destruct (Z.ltb_spec (n - 16) 8); [|destruct (Z.ltb_spec (n - 24) 8)]]];
  repeat match goal with
  | |- context [Z.testbit _ (n - ?k)] =>
      first [ rewrite (Z.testbit_neg_r _ (n - k)) by lia
            | rewrite (Z.shiftr_spec _ _ (n - k)) by lia;
              replace (n - k + k) with n by lia ]
  | |- context [(?a <? 8)] =>
      first [ replace (a <? 8) with true by (symmetry; apply Z.ltb_lt; lia)
            | replace (a <? 8) with false by (symmetry; apply Z.ltb_ge; lia) ]
  end;
  cbn [andb orb]; rewrite ?orb_false_r, ?andb_false_r, ?Hhi by lia; try reflexivity.
  all: try (destruct (Z.testbit v n); reflexivity).
Qed.

(** Reading back the four bytes [PutUint32] writes gives the value. *)
Lemma Uint32_PutUint32 (v : Z) : 0 <= v < 2 ^ 32 -> Uint32 (PutUint32 v) = v.
Proof.
  intros Hv. unfold Uint32, PutUint32. rewrite !Z_of_byte_of_Z.
  apply big_endian_bits. exact Hv.
Qed.

Lemma ReadFull_app (a b : list byte) :
  ReadFull (a ++ b) (length a) = (a, b, None).
Proof.
  unfold ReadFull. rewrite length_app.
  destruct (Nat.leb_spec (length a) (length a + length b)); [|lia].
  rewrite take_app_length, drop_app_length. reflexivity.
Qed.

Lemma ReadFull_all (a : list byte) : ReadFull a (length a) = (a, [], None).
Proof. pose proof (ReadFull_app a []) as H. rewrite app_nil_r in H. exact H. Qed.

(** C9: a frame written by [writeWSFrame] for a 32-bit stream identifier
    and a payload shorter than [2^32] bytes is read back by [readWSFrame]
    as that identifier and that payload, without error. *)
Theorem C9_frame_round_trip (streamID : Z) (data : list byte) :
  0 <= streamID < 2 ^ 32 ->
  Z.of_nat (length data) < 2 ^ 32 ->
  readWSFrame (writeWSFrame streamID data) = (streamID, data, None).
Proof.
  intros Hid Hlen. unfold readWSFrame, writeWSFrame.
  rewrite app_assoc.
  change 8%nat with
    (length (PutUint32 streamID ++ PutUint32 (uint32 (Z.of_nat (length data))))).
  rewrite ReadFull_app.
  change (take 4 (PutUint32 streamID ++ ?l)) with (PutUint32 streamID).
  change (drop 4 (PutUint32 streamID ++ ?l)) with l.
  unfold uint32. rewrite Z.mod_small by lia.
  rewrite !Uint32_PutUint32 by lia. rewrite Nat2Z.id.
  rewrite ReadFull_all. reflexivity.
Qed.

(** C9 at a concrete input: stream 1 carrying the five bytes of ["hello"]. *)
Lemma C9_frame_round_trip_witness :
  readWSFrame (writeWSFrame 1 [x68; x65; x6c; x6c; x6f])
  = (1, [x68; x65; x6c; x6c; x6f], None).
Proof.
  apply (C9_frame_round_trip 1 [x68; x65; x6c; x6c; x6f]).
  - lia.
  - simpl. lia.
Defined.

(** The header on the wire. *)
Example frame_hello :
  writeWSFrame 1 [x68; x65; x6c; x6c; x6f]
  = [x00; x00; x00; x01; x00; x00; x00; x05; x68; x65; x6c; x6c; x6f].
Proof. reflexivity. Qed.

(** A message cut short is an error of [readWSFrame]. *)
Example frame_truncated :
  readWSFrame [x00; x00; x00; x01; x00; x00; x00; x05; x68; x65]
  = (1, [x68; x65; x00; x00; x00], Some ErrUnexpectedEOF)
  /\ readWSFrame [x00; x00; x00] = (0, [], Some ErrUnexpectedEOF).
Proof. split; reflexivity. Qed.

End FrameFacts.

(** ** The metrics registry ([server.MetricsManager]) *)

Module Metrics.

(** [int64] addition wraps. *)
Definition wrap64 (v : Z) : Z := (v + 2 ^ 63) mod 2 ^ 64 - 2 ^ 63.

(** Per-stream metrics.  [LastActive] is a reading of the clock, in
    nanoseconds. *)
Record StreamMetrics : Type := mkStream {
  BytesSent : Z;
  BytesReceived : Z;
  Errors : Z;
  LastActive : Z
}.

(** The registry: [streams], from a stream id to its metrics.  Every id
    owns its [StreamMetrics] cell (the only pointer to it is the one in the
    map), so the map is from ids to cell contents. *)
Abbreviation MetricsManager := (gmap string StreamMetrics).

Definition NewMetricsManager : MetricsManager := ∅.

(** [RegisterStream], at clock reading [now]. *)
Definition RegisterStream (m : MetricsManager) (id : string) (now : Z) : MetricsManager :=
  match m !! id with
  | Some _ => m
  | None => <[id := mkStream 0 0 0 now]> m
  end.

(** [AddBytes], at clock reading [now]. *)
Definition AddBytes (m : MetricsManager) (id : string) (sent recv now : Z) : MetricsManager :=
  match m !! id with
  | Some s =>
      <[id := mkStream (wrap64 (BytesSent s + sent)) (wrap64 (BytesReceived s + recv))
                       (Errors s) now]> m
  | None => m
  end.

(** [AddError]. *)
Definition AddError (m : MetricsManager) (id : string) : MetricsManager :=
  match m !! id with
  | Some s =>
      <[id := mkStream (BytesSent s) (BytesReceived s) (wrap64 (Errors s + 1))
                       (LastActive s)]> m
  | None => m
  end.


End Metrics.

Module MetricsFacts.

Import Metrics.

(** C10: [AddBytes] and [AddError] on an id that is not registered leave
    the registry as it was: no entry appears and no counter moves. *)
Theorem C10_unregistered_id_is_a_no_op
    (m : MetricsManager) (id : string) (sent recv now : Z) :
  m !! id = None ->
  AddBytes m id sent recv now = m /\ AddError m id = m.
Proof. intros H. unfold AddBytes, AddError. rewrite H. split; reflexivity. Qed.

(** C10 at a concrete input: one stream registered, another id used. *)
Lemma C10_unregistered_id_is_a_no_op_witness :
  AddBytes (RegisterStream NewMetricsManager "s1" 5) "s2" 10 20 7
  = RegisterStream NewMetricsManager "s1" 5
  /\ AddError (RegisterStream NewMetricsManager "s1" 5) "s2"
     = RegisterStream NewMetricsManager "s1" 5.
Proof.
  apply (C10_unregistered_id_is_a_no_op
           (RegisterStream NewMetricsManager "s1" 5) "s2" 10 20 7).
  reflexivity.
Defined.

(** On a registered id the counters do move, and only that stream's. *)
Lemma AddBytes_registered (m : MetricsManager) (id : string) (s : StreamMetrics)
    (sent recv now : Z) :
  m !! id = Some s ->
  AddBytes m id sent recv now !! id
  = Some (mkStream (wrap64 (BytesSent s + sent)) (wrap64 (BytesReceived s + recv))
                   (Errors s) now)
  /\ forall id', id' <> id -> AddBytes m id sent recv now !! id' = m !! id'.
Proof.
  intros H. unfold AddBytes. rewrite H. split.
  - apply lookup_insert_eq.
  - intros id' Hne. apply lookup_insert_ne. congruence.
Qed.

Example AddBytes_counts :
  AddBytes (RegisterStream NewMetricsManager "s1" 5) "s1" 10 20 7 !! "s1"
  = Some (mkStream 10 20 0 7).
Proof. reflexivity. Qed.

End MetricsFacts.

(** ** The bridge engine ([bridge.Bridge]) *)

Module Bridge.

Import Frame.

(** How one turn of a [for] loop ends: [continue] (or falling off the end
    of the body), or [return]. *)
Inductive control : Type := Continue | Return.

(** How a goroutine stands once the script of its environment is used up:
    it has returned, or it is blocked in the call that opens its next turn. *)
Inductive status : Type := Returned | Blocked.

Section Loop.

Context {St Obs Ev : Type}.

(** The body of the loop: from the state and what the environment answers
    during one turn, to the state, the effects and the way the turn ends. *)
Variable body : St -> Obs -> St * list Ev * control.

Fixpoint loop (s : St) (script : list Obs) : St * list Ev * status :=
  match script with
  | [] => (s, [], Blocked)
  | o :: script' =>
      let '(s1, es, c) := body s o in
      match c with
      | Return => (s1, es, Returned)
      | Continue =>
          let '(s2, es', st) := loop s1 script' in (s2, es ++ es', st)
      end
  end.

End Loop.

Definition wrap64 (v : Z) : Z := (v + 2 ^ 63) mod 2 ^ 64 - 2 ^ 63.

(** [websocket.BinaryMessage]. *)
Definition BinaryMessage : Z := 2.

Section WithConn.

(** A dialed [net.Conn]. *)
Context {Conn : Type}.

(** The fields of [Bridge] the copy loops read and write.  The client
    endpoint ([ws] or [quicStr]) is fixed at creation; [bridgeType] tells
    which of the two is set. *)
Inductive BridgeType : Type := WSBridge | QUICBridge.

Record Bridge : Type := mkBridge {
  bridgeType : BridgeType;
  tcpConn : option Conn;
  BytesSent : Z;
  BytesReceived : Z;
  target : string
}.

(** The effects of a bridge on its endpoints (logging left out). *)
Inductive event : Type :=
  | Dial (addr : string)                    (* net.Dial "tcp" addr *)
  | TcpWrite (conn : Conn) (data : list byte)
  | QuicWrite (data : list byte)
  | WsWriteMessage (msg : list byte)        (* a binary message *)
  | Sleep
  | WsClose
  | CancelRead (code : Z)
  | CancelWrite (code : Z)
  | TcpClose (conn : Conn).

(** [NewWSBridge] and [NewQUICBridge], before the copy loops start. *)
Definition NewWSBridge (tcp : Conn) : Bridge := mkBridge WSBridge (Some tcp) 0 0 EmptyString.

Definition NewQUICBridge (tcp : option Conn) : Bridge := mkBridge QUICBridge tcp 0 0 EmptyString.

(** *** TCP -> WS ([startWS], first goroutine) *)

(** One turn: what [tcpConn.Read] returns ([buf[:n]] and whether [err] is
    set) and, if the bytes are written to the client, whether that write
    fails. *)
Record TcpTurn : Type := mkTcpTurn {
  t_data : list byte;
  t_err : bool;
  t_werr : bool
}.

Definition tcpToWS (b : Bridge) (o : TcpTurn) : Bridge * list event * control :=
  let n := Z.of_nat (length (t_data o)) in
  if 0 <? n then
    let b1 := mkBridge (bridgeType b) (tcpConn b) (wrap64 (BytesSent b + n))
                       (BytesReceived b) (target b) in
    if t_werr o then (b1, [WsWriteMessage (writeWSFrame 1 (t_data o))], Return)
    else (b1, [WsWriteMessage (writeWSFrame 1 (t_data o))],
          if t_err o then Return else Continue)
  else (b, [], if t_err o then Return else Continue).

(** *** WS -> TCP ([startWS], second goroutine) *)

(** One turn: what [ws.NextReader] returns (whether [err] is set, the
    message type, the bytes of the message) and what [tcpConn.Write]
    returns if it is called ([n] and whether [err] is set). *)
Record WsTurn : Type := mkWsTurn {
  w_err : bool;
  w_mt : Z;
  w_msg : list byte;
  w_n : Z;
  w_werr : bool
}.

Definition wsToTCP (b : Bridge) (o : WsTurn) : Bridge * list event * control :=
  if w_err o then (b, [], Return)
  else if negb (w_mt o =? BinaryMessage) then (b, [], Continue)
  else
    let '(streamID, payload, err) := readWSFrame (w_msg o) in
    match err with
    | Some _ => (b, [], Return)
    | None =>
        if negb (streamID =? 1) then (b, [], Continue)
        else
          (* n, _ := b.tcpConn.Write(payload) *)
          (mkBridge (bridgeType b) (tcpConn b) (BytesSent b)
                    (wrap64 (BytesReceived b + w_n o)) (target b),
           match tcpConn b with
           | Some tcp => [TcpWrite tcp payload]
           | None => []
           end,
           Continue)
    end.

(** *** QUIC -> TCP ([startQUIC], first goroutine) *)

(** One turn: what [quicStr.Read] returns, what [net.Dial] returns if it is
    called ([None]: an error), and whether [tcpConn.Write] fails if it is
    called. *)
Record QuicTurn : Type := mkQuicTurn {
  q_data : list byte;
  q_err : bool;
  q_dial : option Conn;
  q_werr : bool
}.

Definition quicToTCP (b : Bridge) (o : QuicTurn) : Bridge * list event * control :=
  let n := Z.of_nat (length (q_data o)) in
  if 0 <? n then
    match tcpConn b with
    | None =>
        (* On first message, auto-dial TCP *)
        let target := string_of_list_byte (q_data o) in
        match q_dial o with
        | None =>
            (mkBridge (bridgeType b) None (BytesSent b) (BytesReceived b) target,
             [Dial target], Return)
        | Some tcp =>
            (mkBridge (bridgeType b) (Some tcp) (BytesSent b) (BytesReceived b) target,
             [Dial target], Continue) (* target message ignored *)
        end
    | Some tcp =>
        let b1 := mkBridge (bridgeType b) (tcpConn b) (BytesSent b)
                           (wrap64 (BytesReceived b + n)) (target b) in
        if q_werr o then (b1, [TcpWrite tcp (q_data o)], Return)
        else (b1, [TcpWrite tcp (q_data o)], if q_err o then Return else Continue)
    end
  else (b, [], if q_err o then Return else Continue).

(** *** TCP -> QUIC ([startQUIC], second goroutine) *)

(** While [b.tcpConn] is nil (the other goroutine sets it) a turn sleeps
    and makes no call. *)
Definition tcpToQUIC (b : Bridge) (o : TcpTurn) : Bridge * list event * control :=
  match tcpConn b with
  | None => (b, [Sleep], Continue) (* wait until tcpConn exists *)
  | Some _ =>
      let n := Z.of_nat (length (t_data o)) in
      if 0 <? n then
        let b1 := mkBridge (bridgeType b) (tcpConn b) (wrap64 (BytesSent b + n))
                           (BytesReceived b) (target b) in
        if t_werr o then (b1, [QuicWrite (t_data o)], Return)
        else (b1, [QuicWrite (t_data o)], if t_err o then Return else Continue)
      else (b, [], if t_err o then Return else Continue)
  end.

(** [Close], once both goroutines are done: the calls on the endpoints. *)
Definition Close (b : Bridge) : list event :=
  match bridgeType b with
  | WSBridge => [WsClose]
  | QUICBridge => [CancelRead 0; CancelWrite 0]
  end
  ++ match tcpConn b with
     | Some tcp => [TcpClose tcp]
     | None => []
     end.

(** The bytes handed to the TCP backend, in order. *)
Definition forwarded (es : list event) : list byte :=
  concat ((fun e => match e with TcpWrite _ data => data | _ => [] end) <$> es).

(** The addresses dialed, in order. *)
Definition dialed (es : list event) : list string :=
  omap (fun e => match e with Dial addr => Some addr | _ => None end) es.

End WithConn.

Arguments Bridge : clear implicits.
Arguments event : clear implicits.
Arguments QuicTurn : clear implicits.

End Bridge.

Module BridgeFacts.

Import Frame Bridge.

Section WithConn.

Context {Conn : Type}.

Implicit Types (b : Bridge Conn) (tcp : Conn).

(** *** Reads of zero bytes, and errors, in each copy loop *)

Lemma tcpToWS_zero_read b (o : TcpTurn) :
  t_data o = [] -> t_err o = false -> tcpToWS b o = (b, [], Continue).
Proof. intros Hd He. unfold tcpToWS. rewrite Hd, He. reflexivity. Qed.

Lemma tcpToWS_error b (o : TcpTurn) :
  t_err o = true \/ (t_data o <> [] /\ t_werr o = true) ->
  (tcpToWS b o).2 = Return.
Proof.
  unfold tcpToWS. destruct (t_data o) as [|x d]; cbn.
  - intros [->|[H _]]; [reflexivity | congruence].
  - destruct (t_werr o); [reflexivity|].
    intros [->|[_ H]]; [reflexivity | discriminate].
Qed.

Lemma tcpToQUIC_zero_read b (o : TcpTurn) tcp :
  tcpConn b = Some tcp -> t_data o = [] -> t_err o = false ->
  tcpToQUIC b o = (b, [], Continue).
Proof. intros Hc Hd He. unfold tcpToQUIC. rewrite Hc, Hd, He. reflexivity. Qed.

Lemma tcpToQUIC_error b (o : TcpTurn) tcp :
  tcpConn b = Some tcp ->
  t_err o = true \/ (t_data o <> [] /\ t_werr o = true) ->
  (tcpToQUIC b o).2 = Return.
Proof.
  intros Hc. unfold tcpToQUIC. rewrite Hc. destruct (t_data o) as [|x d]; cbn.
  - intros [->|[H _]]; [reflexivity | congruence].
  - destruct (t_werr o); [reflexivity|].
    intros [->|[_ H]]; [reflexivity | discriminate].
Qed.

Lemma quicToTCP_zero_read b (o : QuicTurn Conn) :
  q_data o = [] -> q_err o = false -> quicToTCP b o = (b, [], Continue).
Proof. intros Hd He. unfold quicToTCP. rewrite Hd, He. reflexivity. Qed.

(** Once the backend is dialed, every error ends the QUIC -> TCP loop. *)
Lemma quicToTCP_error b (o : QuicTurn Conn) tcp :
  tcpConn b = Some tcp ->
  q_err o = true \/ (q_data o <> [] /\ q_werr o = true) ->
  (quicToTCP b o).2 = Return.
Proof.
  intros Hc. unfold quicToTCP. rewrite Hc. destruct (q_data o) as [|x d]; cbn.
  - intros [->|[H _]]; [reflexivity | congruence].
  - destruct (q_werr o); [reflexivity|].
    intros [->|[_ H]]; [reflexivity | discriminate].
Qed.

(** A failed dial ends it too. *)
Lemma quicToTCP_dial_error b (o : QuicTurn Conn) :
  tcpConn b = None -> q_data o <> [] -> q_dial o = None ->
  quicToTCP b o
  = (mkBridge (bridgeType b) None (BytesSent b) (BytesReceived b)
              (string_of_list_byte (q_data o)),
     [Dial (string_of_list_byte (q_data o))], Return).
Proof.
  intros Hc Hd Hdial. unfold quicToTCP. rewrite Hc, Hdial.
  destruct (q_data o); [congruence | reflexivity].
Qed.

(** In the WS -> TCP loop an error of [NextReader] or of [readWSFrame] ends
    the loop. *)
Lemma wsToTCP_read_error b (o : WsTurn) :
  w_err o = true
  \/ (w_mt o = BinaryMessage /\ exists e, (readWSFrame (w_msg o)).2 = Some e) ->
  (wsToTCP b o).2 = Return.
Proof.
  unfold wsToTCP. intros [->|[Hmt [e He]]]; [reflexivity|].
  destruct (w_err o); [reflexivity|]. rewrite Hmt. cbn.
  destruct (readWSFrame (w_msg o)) as [[streamID payload] err].
  cbn in He. subst err. reflexivity.
Qed.

(** *** The QUIC -> TCP loop over a whole stream *)

(** Turns that read nothing and report nothing leave the loop where it is. *)
Lemma loop_zero_reads b (zeros script : list (QuicTurn Conn)) :
  Forall (fun o => q_data o = [] /\ q_err o = false) zeros ->
  loop quicToTCP b (zeros ++ script) = loop quicToTCP b script.
Proof.
  induction 1 as [|o zeros [Hd He] _ IH]; [reflexivity|].
  cbn [app loop]. rewrite (quicToTCP_zero_read b o Hd He).
  rewrite IH. destruct (loop quicToTCP b script) as [[b' es] st]. reflexivity.
Qed.

(** A turn that reports an error: of the read, or of the write of the
    bytes it read. *)
Definition failed (o : QuicTurn Conn) : bool :=
  match q_data o with
  | [] => q_err o
  | _ :: _ => q_werr o || q_err o
  end.

(** The turns of a script the loop goes through once the backend is
    dialed: those up to and including the first that fails. *)
Fixpoint upto_failure (script : list (QuicTurn Conn)) : list (QuicTurn Conn) :=
  match script with
  | [] => []
  | o :: script' => o :: (if failed o then [] else upto_failure script')
  end.

(** The body of the loop once the backend is dialed. *)
Lemma quicToTCP_connected b (o : QuicTurn Conn) tcp :
  tcpConn b = Some tcp ->
  quicToTCP b o
  = match q_data o with
    | [] => (b, [], if failed o then Return else Continue)
    | _ :: _ =>
        (mkBridge (bridgeType b) (Some tcp) (BytesSent b)
                  (wrap64 (BytesReceived b + Z.of_nat (length (q_data o)))) (target b),
         [TcpWrite tcp (q_data o)], if failed o then Return else Continue)
    end.
Proof.
  intros Hc. unfold quicToTCP, failed. rewrite Hc.
  destruct (q_data o) as [|x d]; [reflexivity|].
  change (0 <? Z.of_nat (length (x :: d))) with true. cbn match.
  destruct (q_werr o); reflexivity.
Qed.

Lemma loop_connected (script : list (QuicTurn Conn)) : forall b tcp,
  tcpConn b = Some tcp ->
  forwarded (loop quicToTCP b script).1.2 = concat (q_data <$> upto_failure script)
  /\ dialed (loop quicToTCP b script).1.2 = []
  /\ target (loop quicToTCP b script).1.1 = target b
  /\ tcpConn (loop quicToTCP b script).1.1 = Some tcp.
Proof.
  induction script as [|o script IH]; intros b tcp Hc.
  - cbn. auto.
  - cbn [loop upto_failure]. rewrite (quicToTCP_connected b o tcp Hc).
    destruct (q_data o) as [|x d] eqn:Hd.
    + destruct (failed o).
      * cbn. rewrite Hd. auto.
      * specialize (IH b tcp Hc).
        destruct (loop quicToTCP b script) as [[b' es] st].
        cbn in *. rewrite Hd. exact IH.
    + destruct (failed o).
      * cbn. rewrite Hd, !app_nil_r. auto.
      * match goal with
        | |- context [loop quicToTCP ?b1 script] =>
            specialize (IH b1 tcp eq_refl);
            destruct (loop quicToTCP b1 script) as [[b' es] st]
        end.
        cbn in *. rewrite Hd. destruct IH as (-> & -> & -> & ->). auto.
Qed.

(** The first message of a bridge without backend: dialed, not forwarded. *)
Lemma quicToTCP_first b (o : QuicTurn Conn) tcp :
  tcpConn b = None -> q_data o <> [] -> q_dial o = Some tcp ->
  quicToTCP b o
  = (mkBridge (bridgeType b) (Some tcp) (BytesSent b) (BytesReceived b)
              (string_of_list_byte (q_data o)),
     [Dial (string_of_list_byte (q_data o))], Continue).
Proof.
  intros Hc Hd Hdial. unfold quicToTCP. rewrite Hc, Hdial.
  destruct (q_data o); [congruence | reflexivity].
Qed.

(** C6: on a QUIC bridge created without a TCP connection, the first
    non-empty chunk read from the stream is the target: it is dialed, and
    it is not written to the backend.  The bytes written to the backend
    are the chunks read after it, in order and unchanged, for as long as
    the loop runs (up to and including its first failing turn; none when
    the dial fails, which ends the loop). *)
Theorem C6_first_chunk_is_the_target
    (zeros rest : list (QuicTurn Conn)) (first : QuicTurn Conn) :
  Forall (fun o => q_data o = [] /\ q_err o = false) zeros ->
  q_data first <> [] ->
  target (loop quicToTCP (NewQUICBridge None) (zeros ++ first :: rest)).1.1
  = string_of_list_byte (q_data first)
  /\ dialed (loop quicToTCP (NewQUICBridge None) (zeros ++ first :: rest)).1.2
     = [string_of_list_byte (q_data first)]
  /\ forwarded (loop quicToTCP (NewQUICBridge None) (zeros ++ first :: rest)).1.2
     = match q_dial first with
       | Some _ => concat (q_data <$> upto_failure rest)
       | None => []
       end.
Proof.
  intros Hz Hd. rewrite (loop_zero_reads _ _ _ Hz). cbn [loop].
  destruct (q_dial first) as [tcp|] eqn:Hdial.
  - rewrite (quicToTCP_first (NewQUICBridge None) first tcp eq_refl Hd Hdial).
    match goal with
    | |- context [loop quicToTCP ?b1 rest] =>
        destruct (loop_connected rest b1 tcp eq_refl) as (Hf & Hdl & Ht & _);
        destruct (loop quicToTCP b1 rest) as [[b' es] st]
    end.
    cbn [fst snd target] in *. split; [exact Ht|].
    unfold dialed, forwarded in *. cbn [app omap list_omap fmap list_fmap concat].
    rewrite Hdl. split; [reflexivity | exact Hf].
  - rewrite (quicToTCP_dial_error (NewQUICBridge None) first eq_refl Hd Hdial).
    repeat split; reflexivity.
Qed.

End WithConn.

(** C6 at a concrete input: an empty read, then the target, then the
    four bytes of ["ping"]. *)
Lemma C6_first_chunk_is_the_target_witness :
  target (loop quicToTCP (NewQUICBridge None)
            ([mkQuicTurn [] false None false]
               ++ mkQuicTurn (list_byte_of_string "127.0.0.1:9000") false (Some 1%nat) false
               :: [mkQuicTurn (list_byte_of_string "ping") false None false])).1.1
  = "127.0.0.1:9000"
  /\ dialed (loop quicToTCP (NewQUICBridge None)
               ([mkQuicTurn [] false None false]
                  ++ mkQuicTurn (list_byte_of_string "127.0.0.1:9000") false (Some 1%nat) false
                  :: [mkQuicTurn (list_byte_of_string "ping") false None false])).1.2
     = ["127.0.0.1:9000"]
  /\ forwarded (loop quicToTCP (NewQUICBridge None)
                  ([mkQuicTurn [] false None false]
                     ++ mkQuicTurn (list_byte_of_string "127.0.0.1:9000") false (Some 1%nat) false
                     :: [mkQuicTurn (list_byte_of_string "ping") false None false])).1.2
     = list_byte_of_string "ping".
Proof.
  apply (C6_first_chunk_is_the_target
           [mkQuicTurn [] false None false]
           [mkQuicTurn (list_byte_of_string "ping") false None false]
           (mkQuicTurn (list_byte_of_string "127.0.0.1:9000") false (Some 1%nat) false)).
  - repeat constructor.
  - discriminate.
Defined.

(** When the dial fails nothing is forwarded and the loop is over. *)
Example dial_failure_ends_the_bridge :
  loop quicToTCP (NewQUICBridge (Conn := nat) None)
    [mkQuicTurn (list_byte_of_string "127.0.0.1:9") false None false;
     mkQuicTurn (list_byte_of_string "ping") false None false]
  = (mkBridge QUICBridge None 0 0 "127.0.0.1:9", [Dial "127.0.0.1:9"], Returned).
Proof. reflexivity. Qed.

(** C2, on the code.  Two errors do not end the loop of their direction.
    In the WS -> TCP loop the result of [tcpConn.Write] is dropped: a frame
    for stream 1 whose write to the backend fails leaves the loop running.
    In the QUIC -> TCP loop the [continue] after the dial skips the test
    of the read error: a first read that returns the target together with
    an error leaves the loop running.  The other direction of the same
    bridge, TCP -> WS, does return on a failed write. *)
Theorem C2_errors_that_do_not_end_the_loop :
  wsToTCP (NewWSBridge 1%nat)
    (mkWsTurn false BinaryMessage (writeWSFrame 1 [x68; x69]) 0 true)
  = (NewWSBridge 1%nat, [TcpWrite 1%nat [x68; x69]], Continue)
  /\ quicToTCP (NewQUICBridge None)
       (mkQuicTurn (list_byte_of_string "127.0.0.1:9000") true (Some 1%nat) false)
     = (mkBridge QUICBridge (Some 1%nat) 0 0 "127.0.0.1:9000",
        [Dial "127.0.0.1:9000"], Continue)
  /\ (tcpToWS (NewWSBridge 1%nat) (mkTcpTurn [x68; x69] false true)).2 = Return.
Proof. repeat split; reflexivity. Qed.

End BridgeFacts.

(** ** The server: WebSocket handler, QUIC sessions, idle reaper *)

Module Server.

Import GoNet Authorizer Bridge.

(** [30 * time.Second], in nanoseconds. *)
Definition idleTimeout : Z := 30 * 1000000000.

Section WithLibs.

Context `{Net : IPLib} {Conn : Type}.

(** [sessionState]: the bridges of the session's streams, by stream id, and
    [lastActive], a reading of the clock in nanoseconds. *)
Record sessionState : Type := mkSession {
  streams : gmap Z (Bridge Conn);
  lastActive : Z
}.

(** The server: the allow-list of its configuration and the session table,
    keyed by the remote address of the connection. *)
Record Server : Type := mkServer {
  AllowedTargets : list string;
  sessions : gmap string sessionState
}.

Definition New (allowed : list string) : Server := mkServer allowed ∅.

(** What the WebSocket handler answers, given what [extractTarget] found:
    400, 403, or the upgrade followed by [tcpPool.Get target]. *)
Inductive wsAnswer : Type :=
  | StatusBadRequest
  | StatusForbidden
  | Upgraded (target : string).

(** The handler of [Start].  Its rules are [rules, _ := compileRules ...]:
    nil when the list does not compile. *)
Definition wsHandler (s : Server) (extracted : option string) : wsAnswer :=
  let rules := default [] (compileRules (AllowedTargets s)) in
  match extracted with
  | None => StatusBadRequest
  | Some target =>
      if negb (isAllowedEnhanced rules target) then StatusForbidden
      else Upgraded target
  end.

(** What happens to the QUIC side of the server.  [now] is the clock when
    it happens.  A turn is one turn of a copy loop of the bridge of a
    stream. *)
Inductive input : Type :=
  | SessionAccepted (addr : string) (now : Z)
  | StreamAccepted (addr : string) (id : Z) (now : Z)
  | StreamAcceptFailed (addr : string)
  | QuicTurn_ (addr : string) (id : Z) (now : Z) (o : QuicTurn Conn)
  | TcpTurn_ (addr : string) (id : Z) (now : Z) (o : TcpTurn)
  | BridgeDone (addr : string) (id : Z)
  | ReaperTick (now : Z).

Inductive output : Type :=
  | OnStream (addr : string) (id : Z) (e : event Conn)
  | CloseWithError (addr : string) (code : Z) (reason : string).

(** A bridge of a session takes a turn: its state in the stream map moves,
    the session is otherwise untouched. *)
Definition onBridge (s : Server) (addr : string) (id : Z)
    (turn : Bridge Conn -> Bridge Conn * list (event Conn)) : Server * list output :=
  match sessions s !! addr with
  | None => (s, [])
  | Some st =>
      match streams st !! id with
      | None => (s, [])
      | Some b =>
          let '(b1, es) := turn b in
          (mkServer (AllowedTargets s)
                    (<[addr := mkSession (<[id := b1]> (streams st)) (lastActive st)]>
                       (sessions s)),
           OnStream addr id <$> es)
      end
  end.

(** [handleQUICSession], the goroutines it starts and [cleanupIdleSessions],
    one input at a time.  An input for a session that has left the table
    is dropped (its connection is closed). *)
Definition step (s : Server) (i : input) : Server * list output :=
  match i with
  | SessionAccepted addr now =>
      (mkServer (AllowedTargets s) (<[addr := mkSession ∅ now]> (sessions s)), [])
  | StreamAccepted addr id now =>
      match sessions s !! addr with
      | None => (s, [])
      | Some st =>
          (* b := bridge.NewQUICBridge(stream, nil, ...); st.lastActive = time.Now() *)
          (mkServer (AllowedTargets s)
                    (<[addr := mkSession (<[id := NewQUICBridge None]> (streams st)) now]>
                       (sessions s)),
           [])
      end
  | StreamAcceptFailed addr =>
      (mkServer (AllowedTargets s) (delete addr (sessions s)),
       [CloseWithError addr 0 "session closed"])
  | QuicTurn_ addr id _ o =>
      onBridge s addr id (fun b => (quicToTCP b o).1)
  | TcpTurn_ addr id _ o =>
      onBridge s addr id (fun b => (tcpToQUIC b o).1)
  | BridgeDone addr id =>
      match sessions s !! addr with
      | None => (s, [])
      | Some st =>
          match streams st !! id with
          | None => (s, [])
          | Some b =>
              (mkServer (AllowedTargets s)
                        (<[addr := mkSession (delete id (streams st)) (lastActive st)]>
                           (sessions s)),
               OnStream addr id <$> Close b)
          end
      end
  | ReaperTick now =>
      (mkServer (AllowedTargets s)
                (filter (fun kv => ~ (now - lastActive kv.2 > idleTimeout)) (sessions s)),
       (fun kv => CloseWithError kv.1 0 "idle timeout")
         <$> map_to_list (filter (fun kv => now - lastActive kv.2 > idleTimeout)
                                 (sessions s)))
  end.

Fixpoint run (s : Server) (inputs : list input) : Server * list output :=
  match inputs with
  | [] => (s, [])
  | i :: inputs' =>
      let '(s1, out) := step s i in
      let '(s2, out') := run s1 inputs' in
      (s2, out ++ out')
  end.

End WithLibs.

Arguments Server : clear implicits.
Arguments input : clear implicits.
Arguments output : clear implicits.
Arguments sessionState : clear implicits.

End Server.

Module ServerFacts.

Import GoNet Authorizer Bridge Server.

Section WithLibs.

Context `{Net : IPLib} {Conn : Type}.

Implicit Types (s : Server Conn) (st : sessionState Conn).

(** Accepting a stream stamps the session with the clock. *)
Lemma StreamAccepted_lastActive s (addr : string) (id now : Z) st :
  sessions s !! addr = Some st ->
  lastActive <$> sessions (step s (StreamAccepted addr id now)).1 !! addr = Some now.
Proof.
  intros H. cbn [step]. rewrite H. cbn [fst sessions].
  rewrite lookup_insert_eq. reflexivity.
Qed.

Lemma onBridge_lastActive s (addr addr' : string) (id : Z)
    (turn : Bridge Conn -> Bridge Conn * list (event Conn)) :
  lastActive <$> sessions (onBridge s addr id turn).1 !! addr'
  = lastActive <$> sessions s !! addr'.
Proof.
  unfold onBridge. destruct (sessions s !! addr) as [st|] eqn:Hs; [|reflexivity].
  destruct (streams st !! id) as [b|]; [|reflexivity].
  destruct (turn b) as [b1 es]. cbn [fst sessions].
  destruct (decide (addr = addr')) as [<-|Hne].
  - rewrite lookup_insert_eq, Hs. reflexivity.
  - rewrite lookup_insert_ne by exact Hne. reflexivity.
Qed.

(** Bytes moving on a bridge, in either direction, leave [lastActive] of
    every session as it was. *)
Lemma turn_keeps_lastActive s (addr addr' : string) (id now : Z)
    (q : QuicTurn Conn) (t : TcpTurn) :
  lastActive <$> sessions (step s (QuicTurn_ addr id now q)).1 !! addr'
  = lastActive <$> sessions s !! addr'
  /\ lastActive <$> sessions (step s (TcpTurn_ addr id now t)).1 !! addr'
     = lastActive <$> sessions s !! addr'.
Proof. split; apply onBridge_lastActive. Qed.

(** The reaper removes exactly the sessions whose [lastActive] is more
    than 30 seconds old. *)
Lemma ReaperTick_sessions s (addr : string) (now : Z) :
  sessions (step s (ReaperTick now)).1 !! addr
  = match sessions s !! addr with
    | Some st => if decide (now - lastActive st > idleTimeout) then None else Some st
    | None => None
    end.
Proof.
  cbn [step fst sessions].
  destruct (sessions s !! addr) as [st|] eqn:Hs.
  - destruct (decide (now - lastActive st > idleTimeout)) as [Hold|Hyoung].
    + apply map_lookup_filter_None. right. intros st' Hst'.
      rewrite Hs in Hst'. injection Hst' as <-. cbn. tauto.
    + apply map_lookup_filter_Some. split; [exact Hs | exact Hyoung].
  - apply map_lookup_filter_None. left. exact Hs.
Qed.

(** The QUIC side never reads the allow-list: two servers that differ in
    it only produce the same effects. *)
Lemma step_ignores_AllowedTargets (allowed allowed' : list string)
    (ss : gmap string (sessionState Conn)) (i : input Conn) :
  (step (mkServer allowed ss) i).2 = (step (mkServer allowed' ss) i).2
  /\ sessions (step (mkServer allowed ss) i).1 = sessions (step (mkServer allowed' ss) i).1.
Proof.
  destruct i; unfold step, onBridge; cbn [sessions AllowedTargets];
    try (split; reflexivity);
    destruct (ss !! addr) as [st|]; try (split; reflexivity);
    destruct (streams st !! id) as [b|]; try (split; reflexivity).
  - destruct (quicToTCP b o).1. split; reflexivity.
  - destruct (tcpToQUIC b o).1. split; reflexivity.
Qed.

End WithLibs.

Definition seconds (n : Z) : Z := n * 1000000000.

Definition client : string := "198.51.100.7:50000".

(** C1, on the code.  The server allows ["127.0.0.1:9000"] only.  The
    WebSocket handler answers 403 to the target ["127.0.0.1:22"].  On a
    QUIC stream the same target, sent as the first message, is dialed
    without any check and the bytes that follow are written to it; the only
    resets of the stream are those of [Close], with code 0. *)
Theorem C1_quic_target_is_not_authorized :
  AuthorizerFacts.judge ["127.0.0.1:9000"] "127.0.0.1:22" = Some false
  /\ wsHandler (Conn := nat) (New ["127.0.0.1:9000"]) (Some "127.0.0.1:22")
     = StatusForbidden
  /\ (run (New ["127.0.0.1:9000"])
        [SessionAccepted client (seconds 0);
         StreamAccepted client 0 (seconds 1);
         QuicTurn_ client 0 (seconds 2)
           (mkQuicTurn (list_byte_of_string "127.0.0.1:22") false (Some 7%nat) false);
         QuicTurn_ client 0 (seconds 3)
           (mkQuicTurn (list_byte_of_string "SSH-2.0") false None false);
         BridgeDone client 0]).2
     = [OnStream client 0 (Dial "127.0.0.1:22");
        OnStream client 0 (TcpWrite 7%nat (list_byte_of_string "SSH-2.0"));
        OnStream client 0 (CancelRead 0);
        OnStream client 0 (CancelWrite 0);
        OnStream client 0 (TcpClose 7%nat)].
Proof. repeat split; reflexivity. Qed.

(** C8, on the code.  A session accepts one stream at second 1 and then
    carries traffic on it, in both directions, up to second 39.  Its
    [lastActive] stays at second 1, and the reaper's scan at second 40
    closes the session as idle. *)
Theorem C8_traffic_does_not_refresh_lastActive :
  lastActive
    <$> sessions
          (run (New [])
             [SessionAccepted client (seconds 0);
              StreamAccepted client 0 (seconds 1);
              QuicTurn_ client 0 (seconds 2)
                (mkQuicTurn (list_byte_of_string "127.0.0.1:9000") false (Some 7%nat) false);
              QuicTurn_ client 0 (seconds 20)
                (mkQuicTurn (list_byte_of_string "ping") false None false);
              TcpTurn_ client 0 (seconds 39)
                (mkTcpTurn (list_byte_of_string "pong") false false)]).1 !! client
  = Some (seconds 1)
  /\ run (New [])
       [SessionAccepted client (seconds 0);
        StreamAccepted client 0 (seconds 1);
        QuicTurn_ client 0 (seconds 2)
          (mkQuicTurn (list_byte_of_string "127.0.0.1:9000") false (Some 7%nat) false);
        QuicTurn_ client 0 (seconds 20)
          (mkQuicTurn (list_byte_of_string "ping") false None false);
        TcpTurn_ client 0 (seconds 39)
          (mkTcpTurn (list_byte_of_string "pong") false false);
        ReaperTick (seconds 40)]
     = (New [],
        [OnStream client 0 (Dial "127.0.0.1:9000");
         OnStream client 0 (TcpWrite 7%nat (list_byte_of_string "ping"));
         OnStream client 0 (QuicWrite (list_byte_of_string "pong"));
         CloseWithError client 0 "idle timeout"]).
Proof. split; reflexivity. Qed.

(** A session that accepts a stream within the last 30 seconds survives
    the scan. *)
Example fresh_stream_survives_scan :
  is_Some
    (sessions
       (run (New (Conn := nat) [])
          [SessionAccepted client (seconds 0);
           StreamAccepted client 0 (seconds 15);
           ReaperTick (seconds 40)]).1 !! client).
Proof. vm_compute. eexists. reflexivity. Qed.

End ServerFacts.

(** ** More of the authorizer: the plain allow-list check, entries of each
    kind, and how a target is split *)

Module AuthorizerMore.

Import GoStrings GoRegexp GoNet Authorizer.

(** [isAllowed]: the allow-list as plain text entries. *)
Definition isAllowed (entries : list string) (target : string) : bool :=
  match entries with
  | [] => true
  | _ => existsb (fun t => String.eqb t target) entries
  end.

(** An entry that [compileRules] takes as an exact [host:port]: no slash,
    no wildcard, a colon. *)
Definition exactEntry (t : string) : Prop :=
  ContainsByte t "/" = false /\ ContainsAny t "*?" = false /\ ContainsByte t ":" = true.

(** An entry that [compileRules] takes as a domain: none of these bytes. *)
Definition domainEntry (t : string) : Prop :=
  ContainsByte t "/" = false /\ ContainsAny t "*?" = false /\ ContainsByte t ":" = false.

Section Rules.

Context `{Net : IPLib}.

Lemma compileRule_Raw (t : string) (r : TargetRule) :
  compileRule t = Some r -> Raw r = t.
Proof.
  unfold compileRule.
  repeat match goal with
         | |- context [if ?c then _ else _] => destruct c
         | |- context [match ?o with Some _ => _ | None => _ end] => destruct o
         end; intros [= <-]; reflexivity.
Qed.

(** X1.  The rules come out one per entry, in the order of the entries, each
    keeping the text of its entry. *)
Theorem compileRules_keeps_entries (entries : list string) (rules : list TargetRule) :
  compileRules entries = Some rules -> Raw <$> rules = entries.
Proof.
  revert rules. induction entries as [|t entries IH]; intros rules.
  - intros [= <-]. reflexivity.
  - cbn [compileRules]. destruct (compileRule t) as [r|] eqn:Hr; [|discriminate].
    destruct (compileRules entries) as [rs|]; [|discriminate].
    intros [= <-]. cbn. rewrite (compileRule_Raw t r Hr), (IH rs eq_refl). reflexivity.
Qed.

Lemma existsb_Permutation {A : Type} (f : A -> bool) (l l' : list A) :
  l ≡ₚ l' -> existsb f l = existsb f l'.
Proof.
  induction 1 as [|x l l' _ IH|x y l|l l' l'' _ IH1 _ IH2]; cbn.
  - reflexivity.
  - rewrite IH. reflexivity.
  - destruct (f x), (f y); reflexivity.
  - congruence.
Qed.

(** X2.  The verdict does not depend on the order of the rules. *)
Theorem isAllowedEnhanced_Permutation (rules rules' : list TargetRule) (target : string) :
  rules ≡ₚ rules' ->
  isAllowedEnhanced rules target = isAllowedEnhanced rules' target.
Proof.
  intros Hp. destruct rules as [|r rules].
  - apply Permutation_nil_l in Hp. subst. reflexivity.
  - destruct rules' as [|r' rules'].
    + apply Permutation_nil_r in Hp. discriminate.
    + unfold isAllowedEnhanced. apply existsb_Permutation. exact Hp.
Qed.

Lemma compileRule_exact (t : string) :
  exactEntry t -> compileRule t = Some (mkRule t None None false).
Proof. intros (H1 & H2 & H3). unfold compileRule. rewrite H1, H2, H3. reflexivity. Qed.

Lemma compileRule_domain (t : string) :
  domainEntry t -> compileRule t = Some (mkRule t None None true).
Proof. intros (H1 & H2 & H3). unfold compileRule. rewrite H1, H2, H3. reflexivity. Qed.

Lemma compileRules_exact (entries : list string) :
  Forall exactEntry entries ->
  compileRules entries = Some ((fun t => mkRule t None None false) <$> entries).
Proof.
  induction 1 as [|t entries Ht _ IH]; [reflexivity|].
  cbn [compileRules]. rewrite (compileRule_exact t Ht), IH. reflexivity.
Qed.

Lemma existsb_exact_rules (host target : string) (l : list string) :
  existsb (fun r => ruleAllows r host target)
          ((fun t => mkRule t None None false) <$> l)
  = existsb (fun t => String.eqb t target) l.
Proof.
  induction l as [|x l IH]; [reflexivity|].
  cbn [fmap list_fmap existsb]. rewrite IH. f_equal.
  unfold ruleAllows. cbn. apply String.eqb_sym.
Qed.

(** X3.  On a list of exact [host:port] entries the compiled rules decide as
    the plain comparison of [isAllowed] does. *)
Theorem exact_entries_agree_with_isAllowed (entries : list string) (target : string) :
  Forall exactEntry entries ->
  (fun rules => isAllowedEnhanced rules target) <$> compileRules entries
  = Some (isAllowed entries target).
Proof.
  intros H. rewrite (compileRules_exact entries H). cbn [fmap option_fmap option_map].
  f_equal. destruct entries as [|t entries]; [reflexivity|].
  unfold isAllowedEnhanced, isAllowed.
  change ((fun t => mkRule t None None false) <$> t :: entries)
    with (mkRule t None None false :: ((fun t => mkRule t None None false) <$> entries)).
  cbv beta iota.
  change (mkRule t None None false :: ((fun t => mkRule t None None false) <$> entries))
    with ((fun t => mkRule t None None false) <$> t :: entries).
  apply existsb_exact_rules.
Qed.

(** *** Splitting a target into host and port *)

Lemma IndexByte_absent (s : string) (c : ascii) :
  ContainsByte s c = false -> IndexByte s c = None.
Proof.
  induction s as [|d s IH]; [reflexivity|]. simpl.
  destruct (Ascii.eqb d c); [discriminate|]. intros H. rewrite (IH H). reflexivity.
Qed.

Lemma LastIndexByte_absent (s : string) (c : ascii) :
  ContainsByte s c = false -> LastIndexByte s c = None.
Proof.
  induction s as [|d s IH]; [reflexivity|]. simpl.
  destruct (Ascii.eqb d c); [discriminate|]. intros H. rewrite (IH H). reflexivity.
Qed.

Lemma ContainsByte_app (s t : string) (c : ascii) :
  ContainsByte (s +:+ t) c = ContainsByte s c || ContainsByte t c.
Proof.
  induction s as [|d s IH]; [reflexivity|]. simpl.
  destruct (Ascii.eqb d c); [reflexivity | exact IH].
Qed.

Lemma LastIndexByte_colon (host port : string) :
  ContainsByte port ":" = false ->
  LastIndexByte (host +:+ String ":" port) ":" = Some (String.length host).
Proof.
  intros Hp. induction host as [|d host IH]; simpl.
  - rewrite (LastIndexByte_absent port ":" Hp). reflexivity.
  - simpl in IH. rewrite IH. reflexivity.
Qed.

Lemma substring_prefix (s t : string) :
  String.substring 0 (String.length s) (s +:+ t) = s.
Proof. induction s as [|d s IH]; simpl; [destruct t; reflexivity | rewrite IH; reflexivity]. Qed.

Lemma substring_whole (s : string) : String.substring 0 (String.length s) s = s.
Proof. induction s as [|d s IH]; simpl; [reflexivity | rewrite IH; reflexivity]. Qed.

Lemma substring_suffix (s t : string) :
  String.substring (String.length s) (String.length t) (s +:+ t) = t.
Proof. induction s as [|d s IH]; simpl; [apply substring_whole | exact IH]. Qed.

Lemma length_append (s t : string) :
  String.length (s +:+ t) = (String.length s + String.length t)%nat.
Proof. induction s as [|d s IH]; simpl; [reflexivity | rewrite IH; reflexivity]. Qed.

(** A host and a port free of colons and brackets, joined by a colon, are
    split back into that host and that port. *)
Lemma SplitHostPort_join (host port : string) :
  ContainsByte host ":" = false ->
  ContainsByte host "[" = false -> ContainsByte host "]" = false ->
  ContainsByte port ":" = false ->
  ContainsByte port "[" = false -> ContainsByte port "]" = false ->
  SplitHostPort (host +:+ String ":" port) = Some (host, port).
Proof.
  intros Hc Hl Hr Pc Pl Pr. unfold SplitHostPort.
  rewrite (LastIndexByte_colon host port Pc).
  assert (Hb : match host +:+ String ":" port with
               | String "[" _ => true
               | _ => false
               end = false).
  { destruct host as [|d host]; [reflexivity|].
    simpl in Hl. destruct (Ascii.eqb_spec d "[") as [->|Hne]; [discriminate|].
    cbn [String.append].
    destruct d as [[] [] [] [] [] [] [] []]; try reflexivity. congruence. }
  rewrite Hb. unfold slice. rewrite Nat.sub_0_r, substring_prefix.
  rewrite (IndexByte_absent host ":" Hc).
  rewrite Nat.sub_0_r, substring_whole.
  rewrite !IndexByte_absent
    by (rewrite ContainsByte_app; simpl; rewrite ?Hl, ?Hr, ?Pl, ?Pr; reflexivity).
  f_equal. f_equal.
  replace (String.length (host +:+ String ":" port) - (String.length host + 1))%nat
    with (String.length port) by (rewrite length_append; simpl; lia).
  replace (String.length host + 1)%nat with (String.length (host +:+ ":"))
    by (rewrite length_append; simpl; lia).
  replace (host +:+ String ":" port) with ((host +:+ ":") +:+ port).
  - apply substring_suffix.
  - clear. induction host as [|d host IH]; [reflexivity|].
    change (String d ((host +:+ ":") +:+ port) = String d (host +:+ String ":" port)).
    f_equal. exact IH.
Qed.

(** A target without a colon does not split. *)
Lemma SplitHostPort_no_colon (target : string) :
  ContainsByte target ":" = false -> SplitHostPort target = None.
Proof.
  intros H. unfold SplitHostPort. rewrite (LastIndexByte_absent target ":" H). reflexivity.
Qed.

(** X4.  A domain entry allows a target [host:port] exactly when [host] is the
    entry, whatever the port. *)
Theorem domain_entry_ignores_port (d host port : string) :
  domainEntry d ->
  ContainsByte host ":" = false ->
  ContainsByte host "[" = false -> ContainsByte host "]" = false ->
  ContainsByte port ":" = false ->
  ContainsByte port "[" = false -> ContainsByte port "]" = false ->
  (fun rules => isAllowedEnhanced rules (host +:+ String ":" port)) <$> compileRules [d]
  = Some (String.eqb host d).
Proof.
  intros Hd Hc Hl Hr Pc Pl Pr. cbn [compileRules].
  rewrite (compileRule_domain d Hd). cbn [fmap option_fmap option_map].
  unfold isAllowedEnhanced. rewrite (SplitHostPort_join host port Hc Hl Hr Pc Pl Pr).
  simpl. rewrite orb_false_r. reflexivity.
Qed.

(** X5.  A target without a colon has no host: a domain entry allows it only if
    the entry is the empty text, and then it allows every such target. *)
Theorem domain_entry_and_portless_target (d target : string) :
  domainEntry d ->
  ContainsByte target ":" = false ->
  (fun rules => isAllowedEnhanced rules target) <$> compileRules [d]
  = Some (String.eqb EmptyString d).
Proof.
  intros Hd Ht. cbn [compileRules].
  rewrite (compileRule_domain d Hd). cbn [fmap option_fmap option_map].
  unfold isAllowedEnhanced. rewrite (SplitHostPort_no_colon target Ht).
  simpl. rewrite orb_false_r. reflexivity.
Qed.

End Rules.

Lemma compileRules_keeps_entries_witness :
  Raw <$> [@mkRule IPv4.ipv4 "db.internal" None None true;
           mkRule "127.0.0.1:9000" None None false]
  = ["db.internal"; "127.0.0.1:9000"].
Proof.
  apply (compileRules_keeps_entries
           ["db.internal"; "127.0.0.1:9000"]
           [@mkRule IPv4.ipv4 "db.internal" None None true;
            mkRule "127.0.0.1:9000" None None false]).
  reflexivity.
Defined.

Lemma isAllowedEnhanced_Permutation_witness :
  isAllowedEnhanced
    [@mkRule IPv4.ipv4 "db.internal" None None true; mkRule "127.0.0.1:9000" None None false]
    "127.0.0.1:9000"
  = isAllowedEnhanced
      [@mkRule IPv4.ipv4 "127.0.0.1:9000" None None false; mkRule "db.internal" None None true]
      "127.0.0.1:9000".
Proof.
  apply (isAllowedEnhanced_Permutation
           [@mkRule IPv4.ipv4 "db.internal" None None true;
            mkRule "127.0.0.1:9000" None None false]
           [@mkRule IPv4.ipv4 "127.0.0.1:9000" None None false;
            mkRule "db.internal" None None true]
           "127.0.0.1:9000").
  apply perm_swap.
Defined.

Lemma exact_entries_agree_with_isAllowed_witness :
  (fun rules => isAllowedEnhanced rules "10.0.0.1:3306")
    <$> compileRules ["127.0.0.1:22"; "10.0.0.1:3306"]
  = Some (isAllowed ["127.0.0.1:22"; "10.0.0.1:3306"] "10.0.0.1:3306").
Proof.
  apply (exact_entries_agree_with_isAllowed ["127.0.0.1:22"; "10.0.0.1:3306"] "10.0.0.1:3306").
  repeat constructor.
Defined.

Lemma domain_entry_ignores_port_witness :
  (fun rules => isAllowedEnhanced rules ("db.internal" +:+ String ":" "5432"))
    <$> compileRules ["db.internal"]
  = Some (String.eqb "db.internal" "db.internal").
Proof.
  apply (domain_entry_ignores_port "db.internal" "db.internal" "5432");
    [repeat split | reflexivity ..].
Defined.

Lemma domain_entry_and_portless_target_witness :
  (fun rules => isAllowedEnhanced rules "localhost") <$> compileRules [EmptyString]
  = Some (String.eqb EmptyString EmptyString).
Proof.
  apply (domain_entry_and_portless_target EmptyString "localhost");
    [repeat split | reflexivity].
Defined.

End AuthorizerMore.

(** ** More of the pool: what its operations keep, and how they compose *)

Module PoolMore.

Import Pool.

Section WithConn.

Context {Conn : Type}.

Implicit Types (p : TCPPool Conn) (c : Z).

(** The pools the package can produce: a new pool, and whatever
    [AddTargets], [Get] and [Put] make of one. *)
Inductive built : TCPPool Conn -> Prop :=
  | built_new (max : Z) : built (NewTCPPool max)
  | built_add p (logical : string) (targets : list string) :
      built p -> built (AddTargets p logical targets)
  | built_get p (logical : string) : built p -> built (Get p logical).2
  | built_put p (key : string) (conn : Conn) : built p -> built (Put p key conn).1.

(** No stack holds more than [maxSize] connections (none at all when
    [maxSize] is negative). *)
Definition bounded p : Prop :=
  forall key, Z.of_nat (length (idle p key)) <= Z.max 0 (maxSize p).

(** Every logical target with backends has its counter cell. *)
Definition counted p : Prop :=
  forall logical bs, backends p !! logical = Some bs -> is_Some (counters p !! logical).

Lemma idle_lookup cs bk ct mx (key key' : string) (l : list Conn) :
  idle (mkPool (<[key := l]> cs) bk ct mx) key'
  = if decide (key = key') then l else idle (mkPool cs bk ct mx) key'.
Proof.
  unfold idle. cbn [conns]. rewrite lookup_insert.
  destruct (decide (key = key')); reflexivity.
Qed.

Lemma length_removelast {A : Type} (l : list A) : (length (removelast l) <= length l)%nat.
Proof.
  induction l as [|x [|y l] IH]; cbn [removelast length] in *; lia.
Qed.

(** [Get] changes neither the backends nor [maxSize], and takes at most
    from the stacks. *)
Lemma Get_frame p (logical : string) :
  backends (Get p logical).2 = backends p
  /\ maxSize (Get p logical).2 = maxSize p
  /\ (forall key, (length (idle (Get p logical).2 key) <= length (idle p key))%nat)
  /\ forall l', is_Some (counters p !! l') -> is_Some (counters (Get p logical).2 !! l').
Proof.
  unfold Get.
  destruct (backends p !! logical) as [[|b0 bs]|]; try (repeat split; auto; fail).
  destruct (counters p !! logical) as [c|] eqn:Hc; try (repeat split; auto; fail).
  assert (Hct : forall l' v, is_Some (counters p !! l') ->
                 is_Some (<[logical := v]> (counters p) !! l')).
  { intros l' v H. rewrite lookup_insert. destruct (decide (logical = l')); eauto. }
  destruct ((b0 :: bs) !! _) as [bk|]; [|repeat split; cbn; auto].
  destruct (last _) as [got|] eqn:Hl; [|repeat split; cbn; auto].
  repeat split; cbn [snd backends maxSize counters]; auto.
  intros key. destruct p as [cs bks cts mx]. cbn [conns backends counters maxSize] in *.
  rewrite idle_lookup. destruct (decide (bk = key)) as [<-|_].
  - unfold idle at 2. cbn [conns]. apply length_removelast.
  - unfold idle. cbn [conns]. lia.
Qed.

Lemma Put_frame p (key : string) (conn : Conn) :
  backends (Put p key conn).1 = backends p
  /\ counters (Put p key conn).1 = counters p
  /\ maxSize (Put p key conn).1 = maxSize p.
Proof. unfold Put. destruct (_ >=? _); repeat split; reflexivity. Qed.

Lemma Put_bounded p (key : string) (conn : Conn) :
  bounded p -> bounded (Put p key conn).1.
Proof.
  intros Hb key'. unfold Put.
  destruct (Z.geb_spec (Z.of_nat (length (idle p key))) (maxSize p)) as [Hge|Hlt];
    cbn [fst maxSize]; [apply Hb|].
  destruct p as [cs bks cts mx]. cbn [maxSize] in *.
  rewrite idle_lookup. destruct (decide (key = key')) as [<-|_]; [|apply Hb].
  rewrite length_app. cbn [length]. lia.
Qed.

(** X6.  Whatever the sequence of calls, no stack of a pool ever holds more
    than [maxSize] connections. *)
Theorem built_pool_is_bounded p : built p -> bounded p.
Proof.
  induction 1 as [max|p logical targets _ IH|p logical _ IH|p key conn _ IH].
  - intros key. unfold idle. cbn. rewrite lookup_empty. cbn. lia.
  - exact IH.
  - intros key. destruct (Get_frame p logical) as (_ & -> & Hle & _).
    specialize (IH key). specialize (Hle key). lia.
  - apply Put_bounded. exact IH.
Qed.

Lemma built_pool_is_counted p : built p -> counted p.
Proof.
  induction 1 as [max|p logical targets _ IH|p logical _ IH|p key conn _ IH];
    intros l bs.
  - cbn. rewrite lookup_empty. discriminate.
  - cbn [AddTargets backends counters]. rewrite !lookup_insert.
    destruct (decide (logical = l)); [eauto | apply IH].
  - destruct (Get_frame p logical) as (-> & _ & _ & Hc). intros H. eapply Hc, IH, H.
  - destruct (Put_frame p key conn) as (-> & -> & _). apply IH.
Qed.

(** X7.  [Get] never panics on a pool the package produced: it answers "no
    backends" exactly when the target has none, and otherwise picks one of
    the target's backends. *)
Theorem built_pool_Get_picks_a_backend p (logical : string) :
  built p ->
  match (Get p logical).1 with
  | Panic => False
  | NoBackends => backends p !! logical = None \/ backends p !! logical = Some []
  | Pooled backend _ | Dial backend =>
      exists bs, backends p !! logical = Some bs /\ backend ∈ bs
  end.
Proof.
  intros Hb. pose proof (built_pool_is_counted p Hb logical) as Hc. unfold Get.
  destruct (backends p !! logical) as [[|b0 bs]|] eqn:Hbk;
    [cbn; auto | | cbn; auto].
  destruct (Hc _ eq_refl) as [c ->].
  pose proof (Z.mod_pos_bound (AddUint32_1 c) (Z.of_nat (length (b0 :: bs)))
                ltac:(cbn [length]; lia)) as Hm.
  destruct (lookup_lt_is_Some_2 (b0 :: bs)
              (Z.to_nat (AddUint32_1 c mod Z.of_nat (length (b0 :: bs))))
              ltac:(lia)) as [bk Hk].
  rewrite Hk. apply list_elem_of_lookup_2 in Hk.
  destruct (last _); cbn; eauto.
Qed.

(** The backends picked by [k] calls of [Get] in a row, and the pool
    after them. *)
Fixpoint Gets p (logical : string) (k : nat) : list (option string) * TCPPool Conn :=
  match k with
  | O => ([], p)
  | S k' =>
      let '(r, p1) := Get p logical in
      let '(rs, p2) := Gets p1 logical k' in
      (picked r :: rs, p2)
  end.

Lemma Get_pick p (logical : string) (bs : list string) c :
  backends p !! logical = Some bs -> bs <> [] ->
  counters p !! logical = Some c ->
  picked (Get p logical).1 = bs !! Z.to_nat (AddUint32_1 c mod Z.of_nat (length bs))
  /\ backends (Get p logical).2 !! logical = Some bs
  /\ counters (Get p logical).2 !! logical = Some (AddUint32_1 c).
Proof.
  intros Hb Hne Hc. unfold Get. rewrite Hb, Hc.
  destruct bs as [|b0 bs]; [congruence|].
  destruct ((b0 :: bs) !! _) as [bk|] eqn:Hk.
  - destruct (last _); cbn; rewrite lookup_insert_eq; auto.
  - cbn. rewrite lookup_insert_eq. auto.
Qed.

Lemma Gets_lookup (logical : string) (bs : list string) (k : nat) : forall p c (j : nat),
  backends p !! logical = Some bs -> bs <> [] ->
  counters p !! logical = Some c ->
  0 <= c -> c + Z.of_nat k < 2 ^ 32 ->
  (j < k)%nat ->
  (Gets p logical k).1 !! j
  = Some (bs !! Z.to_nat ((c + 1 + Z.of_nat j) mod Z.of_nat (length bs))).
Proof.
  induction k as [|k IH]; intros p c j Hb Hne Hc H0 Hk Hj; [lia|].
  cbn [Gets]. destruct (Get_pick p logical bs c Hb Hne Hc) as (Hp & Hb1 & Hc1).
  destruct (Get p logical) as [r p1]. cbn [fst snd] in *.
  assert (Hadd : AddUint32_1 c = c + 1) by (unfold AddUint32_1; apply Z.mod_small; lia).
  rewrite Hadd in *.
  specialize (IH p1 (c + 1)).
  destruct (Gets p1 logical k) as [rs p2]. cbn [fst] in *.
  destruct j as [|j]; cbn [lookup list_lookup].
  - rewrite Hp. replace (c + 1 + Z.of_nat 0) with (c + 1) by lia. reflexivity.
  - change (rs !! j = Some (bs !! Z.to_nat ((c + 1 + Z.of_nat (S j)) mod Z.of_nat (length bs)))).
    rewrite (IH j Hb1 Hne Hc1) by lia.
    replace (c + 1 + 1 + Z.of_nat j) with (c + 1 + Z.of_nat (S j)) by lia. reflexivity.
Qed.

(** X8.  Round robin is fair: as long as the 32-bit counter does not wrap, as
    many calls of [Get] in a row as the target has backends pick every
    backend of the target. *)
Theorem Get_round_robin_is_fair p (logical : string) (bs : list string) c (b : string) :
  backends p !! logical = Some bs ->
  counters p !! logical = Some c ->
  0 <= c -> c + Z.of_nat (length bs) < 2 ^ 32 ->
  b ∈ bs ->
  Some b ∈ (Gets p logical (length bs)).1.
Proof.
  intros Hb Hc H0 Hk Hin.
  assert (Hne : bs <> []) by (intros ->; inversion Hin).
  apply list_elem_of_lookup in Hin as [i Hi].
  pose proof (lookup_lt_Some _ _ _ Hi) as Hlt.
  set (n := Z.of_nat (length bs)) in *.
  assert (Hn : 0 < n) by (destruct bs; [congruence | subst n; cbn [length]; lia]).
  pose proof (Z.mod_pos_bound (Z.of_nat i - c - 1) n Hn) as Hj.
  apply list_elem_of_lookup. exists (Z.to_nat ((Z.of_nat i - c - 1) mod n)).
  rewrite (Gets_lookup logical bs (length bs) p c _ Hb Hne Hc H0 Hk) by lia.
  f_equal. rewrite <- Hi. f_equal. fold n. rewrite Z2Nat.id by lia.
  rewrite Zplus_mod_idemp_r.
  replace (c + 1 + (Z.of_nat i - c - 1)) with (Z.of_nat i) by lia.
  rewrite Z.mod_small by lia. apply Nat2Z.id.
Qed.

(** X9.  Last in, first out: a connection that [Put] pooled at a backend is the
    one the next [Get] that picks this backend hands out, and the stack is
    then as it was before the [Put]. *)
Theorem Put_then_Get_returns_the_connection
    p (logical backend : string) (bs : list string) c (conn : Conn) :
  backends p !! logical = Some bs ->
  counters p !! logical = Some c ->
  bs !! Z.to_nat (AddUint32_1 c mod Z.of_nat (length bs)) = Some backend ->
  Z.of_nat (length (idle p backend)) < maxSize p ->
  (Put p backend conn).2 = false
  /\ (Get (Put p backend conn).1 logical).1 = Pooled backend conn
  /\ idle (Get (Put p backend conn).1 logical).2 backend = idle p backend.
Proof.
  intros Hb Hc Hk Hlt. unfold Put.
  destruct (Z.geb_spec (Z.of_nat (length (idle p backend))) (maxSize p)); [lia|].
  cbn [fst snd]. split; [reflexivity|].
  unfold Get. cbn [backends counters conns maxSize]. rewrite Hb, Hc.
  destruct bs as [|b0 bs]; [discriminate|]. rewrite Hk.
  destruct p as [cs bks cts mx]. cbn [conns backends counters maxSize] in *.
  rewrite idle_lookup. destruct (decide (backend = backend)) as [_|]; [|congruence].
  rewrite last_snoc. cbn [fst snd]. split; [reflexivity|].
  rewrite idle_lookup. destruct (decide (backend = backend)) as [_|]; [|congruence].
  apply removelast_last.
Qed.

End WithConn.

Lemma built_pool_is_bounded_witness :
  Z.of_nat (length (idle (Put (Put (NewTCPPool 1) "k" 7%nat).1 "k" 8%nat).1 "k"))
  <= Z.max 0 (maxSize (Put (Put (NewTCPPool 1) "k" 7%nat).1 "k" 8%nat).1).
Proof.
  apply (built_pool_is_bounded (Put (Put (NewTCPPool 1) "k" 7%nat).1 "k" 8%nat).1).
  apply built_put, built_put, built_new.
Defined.

Lemma built_pool_Get_picks_a_backend_witness :
  exists bs, backends (PoolFacts.two_backends) !! "svc" = Some bs /\ "10.0.0.2:80" ∈ bs.
Proof.
  apply (built_pool_Get_picks_a_backend PoolFacts.two_backends "svc").
  apply built_add, built_new.
Defined.

Lemma Get_round_robin_is_fair_witness :
  Some "10.0.0.1:80" ∈ (Gets PoolFacts.two_backends "svc" 2).1.
Proof.
  apply (Get_round_robin_is_fair PoolFacts.two_backends "svc"
           ["10.0.0.1:80"; "10.0.0.2:80"] 0 "10.0.0.1:80").
  - reflexivity.
  - reflexivity.
  - lia.
  - cbn. lia.
  - apply list_elem_of_here.
Defined.

Lemma Put_then_Get_returns_the_connection_witness :
  (Put (AddTargets (NewTCPPool 2) "svc" ["10.0.0.1:80"]) "10.0.0.1:80" 7%nat).2 = false
  /\ (Get (Put (AddTargets (NewTCPPool 2) "svc" ["10.0.0.1:80"]) "10.0.0.1:80" 7%nat).1
         "svc").1
     = Pooled "10.0.0.1:80" 7%nat
  /\ idle (Get (Put (AddTargets (NewTCPPool 2) "svc" ["10.0.0.1:80"]) "10.0.0.1:80" 7%nat).1
             "svc").2 "10.0.0.1:80"
     = idle (AddTargets (NewTCPPool 2) "svc" ["10.0.0.1:80"]) "10.0.0.1:80".
Proof.
  apply (Put_then_Get_returns_the_connection
           (AddTargets (NewTCPPool 2) "svc" ["10.0.0.1:80"]) "svc" "10.0.0.1:80"
           ["10.0.0.1:80"] 0 7%nat).
  - reflexivity.
  - reflexivity.
  - reflexivity.
  - vm_compute. reflexivity.
Defined.

End PoolMore.

(** ** More of the framing: every payload length, malformed messages, and
    the way back from a message to its frame *)

Module FrameMore.

Import Frame.

Lemma shiftr_mod_byte (v k : Z) :
  0 <= k <= 24 -> Z.shiftr v k mod 256 = Z.shiftr (v mod 2 ^ 32) k mod 256.
Proof.
  intros Hk. change 256 with (2 ^ 8). apply Z.bits_inj'. intros n Hn.
  rewrite !Z.testbit_mod_pow2, !Z.shiftr_spec, Z.testbit_mod_pow2 by lia.
  destruct (Z.ltb_spec n 8); [|reflexivity]. cbn [andb].
  destruct (Z.ltb_spec (n + k) 32); [reflexivity | lia].
Qed.

Lemma byte_of_Z_shiftr_mod (v k : Z) :
  0 <= k <= 24 ->
  byte_of_Z (Z.shiftr (v mod 2 ^ 32) k) = byte_of_Z (Z.shiftr v k).
Proof.
  intros Hk. unfold byte_of_Z. rewrite <- (shiftr_mod_byte v k Hk). reflexivity.
Qed.

(** [PutUint32] writes the low 32 bits of its argument. *)
Lemma PutUint32_mod (v : Z) : PutUint32 (v mod 2 ^ 32) = PutUint32 v.
Proof.
  unfold PutUint32.
  rewrite !byte_of_Z_shiftr_mod by lia.
  pose proof (byte_of_Z_shiftr_mod v 0 ltac:(lia)) as H0.
  rewrite !Z.shiftr_0_r in H0. rewrite H0. reflexivity.
Qed.

Lemma Uint32_PutUint32_mod (v : Z) : Uint32 (PutUint32 v) = v mod 2 ^ 32.
Proof.
  rewrite <- PutUint32_mod. apply FrameFacts.Uint32_PutUint32.
  apply Z.mod_pos_bound. lia.
Qed.

Lemma read_written_frame (streamID : Z) (data : list byte) :
  readWSFrame (writeWSFrame streamID data)
  = (streamID mod 2 ^ 32,
     take (Z.to_nat (Z.of_nat (length data) mod 2 ^ 32)) data,
     None).
Proof.
  unfold readWSFrame, writeWSFrame. rewrite app_assoc.
  change 8%nat with
    (length (PutUint32 streamID ++ PutUint32 (uint32 (Z.of_nat (length data))))).
  rewrite FrameFacts.ReadFull_app.
  change (take 4 (PutUint32 streamID ++ ?l)) with (PutUint32 streamID).
  change (drop 4 (PutUint32 streamID ++ ?l)) with l.
  rewrite !Uint32_PutUint32_mod. unfold uint32. rewrite Z.mod_mod by lia.
  pose proof (Z.mod_pos_bound (Z.of_nat (length data)) (2 ^ 32) ltac:(lia)) as Hm.
  assert (Hle : Z.of_nat (length data) mod 2 ^ 32 <= Z.of_nat (length data)).
  { apply Z.mod_le; lia. }
  unfold ReadFull.
  destruct (Nat.leb_spec (Z.to_nat (Z.of_nat (length data) mod 2 ^ 32)) (length data));
    [reflexivity | lia].
Qed.

(** X10.  Writing then reading a frame, for every stream identifier and every
    payload: the identifier comes back reduced to 32 bits and the payload
    cut to its length reduced to 32 bits, without error. *)
Theorem frame_round_trip_any_length (streamID : Z) (data : list byte) :
  readWSFrame (writeWSFrame streamID data)
  = (streamID mod 2 ^ 32,
     take (Z.to_nat (Z.of_nat (length data) mod 2 ^ 32)) data,
     None).
Proof. apply read_written_frame. Qed.

Lemma readWSFrame_short (r : list byte) :
  (length r < 8)%nat ->
  readWSFrame r = (0, [], Some (match r with [] => EOF | _ => ErrUnexpectedEOF end)).
Proof.
  intros H. unfold readWSFrame, ReadFull.
  destruct (Nat.leb_spec 8 (length r)); [lia | reflexivity].
Qed.

Lemma readWSFrame_long (r : list byte) :
  (8 <= length r)%nat ->
  readWSFrame r
  = let n := Z.to_nat (Uint32 (take 4 (drop 4 r))) in
    if Nat.leb n (length (drop 8 r))
    then (Uint32 (take 4 r), take n (drop 8 r), None)
    else (Uint32 (take 4 r),
          drop 8 r ++ replicate (n - length (drop 8 r)) x00,
          Some (match drop 8 r with [] => EOF | _ => ErrUnexpectedEOF end)).
Proof.
  intros H. unfold readWSFrame. unfold ReadFull at 1.
  destruct (Nat.leb_spec 8 (length r)); [|lia].
  rewrite take_take, Nat.min_l by lia.
  replace (drop 4 (take 8 r)) with (take 4 (drop 4 r))
    by (exact (take_drop_commute r 4 4)).
  cbv zeta. unfold ReadFull.
  destruct (Nat.leb _ _); reflexivity.
Qed.

(** X11.  What [readWSFrame] makes of any message.  Shorter than the header: an
    error, stream 0 and no payload.  Otherwise the payload has exactly the
    length the header declares, there is no error exactly when the message
    holds that many bytes after the header, and the payload is then those
    bytes (what follows them is ignored). *)
Theorem readWSFrame_any_message (r : list byte) :
  ((length r < 8)%nat ->
     exists e, readWSFrame r = (0, [], Some e))
  /\ ((8 <= length r)%nat ->
       (readWSFrame r).1.1 = Uint32 (take 4 r)
       /\ length (readWSFrame r).1.2 = Z.to_nat (Uint32 (take 4 (drop 4 r)))
       /\ ((readWSFrame r).2 = None
           <-> (Z.to_nat (Uint32 (take 4 (drop 4 r))) <= length r - 8)%nat)
       /\ ((readWSFrame r).2 = None ->
           (readWSFrame r).1.2 = take (Z.to_nat (Uint32 (take 4 (drop 4 r)))) (drop 8 r))).
Proof.
  split; intros Hlen.
  - rewrite (readWSFrame_short r Hlen). eexists. reflexivity.
  - rewrite (readWSFrame_long r Hlen). cbv zeta.
    set (n := Z.to_nat (Uint32 (take 4 (drop 4 r)))).
    rewrite length_drop.
    destruct (Nat.leb_spec n (length r - 8)) as [Hn|Hn]; cbn [fst snd].
    + rewrite length_take, length_drop. repeat split; auto; lia.
    + rewrite length_app, length_replicate, length_drop.
      repeat split; try discriminate; try lia.
Qed.

Lemma byte_of_Z_mod (v : Z) : byte_of_Z (v mod 256) = byte_of_Z v.
Proof. unfold byte_of_Z. rewrite Z.mod_mod by lia. reflexivity. Qed.

Lemma Z_of_byte_range (b : byte) : 0 <= Z_of_byte b < 256.
Proof.
  unfold Z_of_byte. pose proof (Strings.Byte.to_N_bounded b) as H.
  lia.
Qed.

Lemma byte_of_Z_of_byte (b : byte) : byte_of_Z (Z_of_byte b) = b.
Proof.
  unfold byte_of_Z. rewrite Z.mod_small by apply Z_of_byte_range.
  unfold Z_of_byte. rewrite N2Z.id, Strings.Byte.of_to_N. reflexivity.
Qed.

Lemma byte_sum (a b c d : Z) :
  0 <= a < 256 -> 0 <= b < 256 -> 0 <= c < 256 -> 0 <= d < 256 ->
  0 <= d + 256 * c + 65536 * b + 16777216 * a < 2 ^ 32
  /\ (d + 256 * c + 65536 * b + 16777216 * a) mod 256 = d
  /\ Z.shiftr (d + 256 * c + 65536 * b + 16777216 * a) 8 mod 256 = c
  /\ Z.shiftr (d + 256 * c + 65536 * b + 16777216 * a) 16 mod 256 = b
  /\ Z.shiftr (d + 256 * c + 65536 * b + 16777216 * a) 24 mod 256 = a.
Proof.
  intros Ha Hb Hc Hd.
  rewrite !Z.shiftr_div_pow2 by lia.
  change (2 ^ 8) with 256. change (2 ^ 16) with 65536. change (2 ^ 24) with 16777216.
  change (2 ^ 32) with 4294967296.
  repeat split; try lia; Z.div_mod_to_equations; lia.
Qed.

(** The value of four bytes read as a big-endian number. *)
Lemma Uint32_value (b0 b1 b2 b3 : byte) :
  Uint32 [b0; b1; b2; b3]
  = Z_of_byte b3 + 256 * Z_of_byte b2 + 65536 * Z_of_byte b1 + 16777216 * Z_of_byte b0.
Proof.
  destruct (byte_sum (Z_of_byte b0) (Z_of_byte b1) (Z_of_byte b2) (Z_of_byte b3)
              (Z_of_byte_range b0) (Z_of_byte_range b1) (Z_of_byte_range b2)
              (Z_of_byte_range b3)) as (Hr & H0 & H8 & H16 & H24).
  rewrite <- (FrameFacts.big_endian_bits _ Hr).
  rewrite H0, H8, H16, H24. reflexivity.
Qed.

(** Writing back the number read from four bytes gives those bytes. *)
Lemma PutUint32_Uint32 (b0 b1 b2 b3 : byte) :
  PutUint32 (Uint32 [b0; b1; b2; b3]) = [b0; b1; b2; b3].
Proof.
  rewrite Uint32_value.
  destruct (byte_sum (Z_of_byte b0) (Z_of_byte b1) (Z_of_byte b2) (Z_of_byte b3)
              (Z_of_byte_range b0) (Z_of_byte_range b1) (Z_of_byte_range b2)
              (Z_of_byte_range b3)) as (Hr & H0 & H8 & H16 & H24).
  unfold PutUint32.
  rewrite <- (byte_of_Z_mod (Z.shiftr _ 24)), <- (byte_of_Z_mod (Z.shiftr _ 16)),
          <- (byte_of_Z_mod (Z.shiftr _ 8)).
  rewrite H8, H16, H24.
  rewrite <- (byte_of_Z_mod (_ + _)), H0, !byte_of_Z_of_byte. reflexivity.
Qed.

Lemma Uint32_range (l : list byte) : 0 <= Uint32 l < 2 ^ 32.
Proof.
  destruct l as [|b0 [|b1 [|b2 [|b3 [|b4 l]]]]]; try (cbn; lia).
  rewrite Uint32_value.
  apply (byte_sum (Z_of_byte b0) (Z_of_byte b1) (Z_of_byte b2) (Z_of_byte b3));
    apply Z_of_byte_range.
Qed.

(** X12.  The way back: a message that [readWSFrame] reads without error, and
    that ends with its payload, is the frame [writeWSFrame] builds from what
    was read. *)
Theorem read_frame_then_write_it_back
    (msg : list byte) (streamID : Z) (payload : list byte) :
  readWSFrame msg = (streamID, payload, None) ->
  length msg = (8 + length payload)%nat ->
  writeWSFrame streamID payload = msg.
Proof.
  intros Hread Hlen.
  rewrite readWSFrame_long in Hread by lia. cbv zeta in Hread.
  destruct (Nat.leb_spec (Z.to_nat (Uint32 (take 4 (drop 4 msg)))) (length (drop 8 msg)))
    as [Hn|Hn]; [|discriminate].
  injection Hread as <- <-.
  rewrite length_take, length_drop in Hlen. rewrite length_drop in Hn.
  assert (Hfull : Z.to_nat (Uint32 (take 4 (drop 4 msg))) = (length msg - 8)%nat) by lia.
  rewrite Hfull, <- (length_drop msg 8), firstn_all.
  unfold writeWSFrame, uint32.
  rewrite length_drop, <- Hfull.
  pose proof (Uint32_range (take 4 (drop 4 msg))) as Hr.
  rewrite Z2Nat.id, Z.mod_small by lia.
  destruct msg as [|b0 [|b1 [|b2 [|b3 [|b4 [|b5 [|b6 [|b7 rest]]]]]]]];
    cbn [length] in Hlen; try lia.
  cbn [take drop]. rewrite !PutUint32_Uint32. reflexivity.
Qed.

Lemma read_frame_then_write_it_back_witness :
  writeWSFrame 1 [x68; x69] = [x00; x00; x00; x01; x00; x00; x00; x02; x68; x69].
Proof.
  apply (read_frame_then_write_it_back
           [x00; x00; x00; x01; x00; x00; x00; x02; x68; x69] 1 [x68; x69]);
    reflexivity.
Defined.

End FrameMore.

(** ** More of the bridge: counters, the other directions, and frames from
    one gateway to the next *)

Module BridgeMore.

Import Frame Bridge.

Lemma wrap64_small (v : Z) : - 2 ^ 63 <= v < 2 ^ 63 -> wrap64 v = v.
Proof. intros H. unfold wrap64. rewrite Z.mod_small by lia. lia. Qed.

Lemma wrap64_add (a n : Z) : wrap64 (wrap64 a + n) = wrap64 (a + n).
Proof.
  unfold wrap64.
  replace ((a + 2 ^ 63) mod 2 ^ 64 - 2 ^ 63 + n + 2 ^ 63)
    with ((a + 2 ^ 63) mod 2 ^ 64 + n) by lia.
  rewrite Zplus_mod_idemp_l. do 2 f_equal. lia.
Qed.

Section WithConn.

Context {Conn : Type}.

Implicit Types (b : Bridge Conn) (tcp : Conn).

(** The bytes written to the QUIC stream, in order. *)
Definition written (es : list (event Conn)) : list byte :=
  concat ((fun e => match e with QuicWrite data => data | _ => [] end) <$> es).

(** The messages written to the WebSocket, in order. *)
Definition messages (es : list (event Conn)) : list (list byte) :=
  omap (fun e => match e with WsWriteMessage msg => Some msg | _ => None end) es.

(** A turn of a TCP-reading loop that reports an error: of the read, or of
    the write of the bytes it read. *)
Definition tfailed (o : TcpTurn) : bool :=
  match t_data o with
  | [] => t_err o
  | _ :: _ => t_werr o || t_err o
  end.

(** The turns such a loop goes through: up to and including the first
    that fails. *)
Fixpoint tupto (script : list TcpTurn) : list TcpTurn :=
  match script with
  | [] => []
  | o :: script' => o :: (if tfailed o then [] else tupto script')
  end.

Lemma wrap64_range (v : Z) : - 2 ^ 63 <= wrap64 v < 2 ^ 63.
Proof. unfold wrap64. pose proof (Z.mod_pos_bound (v + 2 ^ 63) (2 ^ 64)). lia. Qed.

Lemma forwarded_app (es es' : list (event Conn)) :
  forwarded (es ++ es') = forwarded es ++ forwarded es'.
Proof. unfold forwarded. rewrite fmap_app, concat_app. reflexivity. Qed.

Lemma quicToTCP_counts b (o : QuicTurn Conn) :
  - 2 ^ 63 <= BytesReceived b < 2 ^ 63 ->
  BytesReceived (quicToTCP b o).1.1
  = wrap64 (BytesReceived b + Z.of_nat (length (forwarded (quicToTCP b o).1.2)))
  /\ - 2 ^ 63 <= BytesReceived (quicToTCP b o).1.1 < 2 ^ 63.
Proof.
  intros Hb. unfold quicToTCP.
  destruct (q_data o) as [|x d].
  - change (0 <? Z.of_nat (length (@nil byte))) with false. cbv iota.
    cbn [fst snd]. unfold forwarded. cbn. rewrite Z.add_0_r, wrap64_small by exact Hb. auto.
  - change (0 <? Z.of_nat (length (x :: d))) with true. cbv iota.
    destruct (tcpConn b) as [tcp|].
    + assert (Hf : forwarded [TcpWrite tcp (x :: d)] = x :: d)
        by (unfold forwarded; cbn; rewrite app_nil_r; reflexivity).
      destruct (q_werr o); cbn [fst snd BytesReceived]; rewrite Hf;
        split; try reflexivity; apply wrap64_range.
    + destruct (q_dial o); cbn [fst snd BytesReceived]; unfold forwarded; cbn;
        rewrite Z.add_0_r, wrap64_small by exact Hb; auto.
Qed.

(** X13.  [BytesReceived] counts the bytes handed to the backend, and only
    them: the chunk that names the target is not counted. *)
Theorem BytesReceived_counts_forwarded_bytes (script : list (QuicTurn Conn)) : forall b,
  - 2 ^ 63 <= BytesReceived b < 2 ^ 63 ->
  BytesReceived (loop quicToTCP b script).1.1
  = wrap64 (BytesReceived b + Z.of_nat (length (forwarded (loop quicToTCP b script).1.2))).
Proof.
  induction script as [|o script IH]; intros b Hb.
  - cbn. rewrite Z.add_0_r, wrap64_small by exact Hb. reflexivity.
  - cbn [loop]. destruct (quicToTCP_counts b o Hb) as [Hs Hr].
    destruct (quicToTCP b o) as [[b1 es1] c]. cbn [fst snd] in Hs, Hr.
    destruct c; [|exact Hs].
    specialize (IH b1 Hr). destruct (loop quicToTCP b1 script) as [[b2 es2] st].
    cbn [fst snd] in *. rewrite IH, Hs, wrap64_add, forwarded_app, length_app, Nat2Z.inj_add.
    f_equal. lia.
Qed.

(** *** TCP -> QUIC *)

Lemma written_app (es es' : list (event Conn)) :
  written (es ++ es') = written es ++ written es'.
Proof. unfold written. rewrite fmap_app, concat_app. reflexivity. Qed.

Lemma tcpToQUIC_connected b (o : TcpTurn) tcp :
  tcpConn b = Some tcp ->
  tcpToQUIC b o
  = match t_data o with
    | [] => (b, [], if tfailed o then Return else Continue)
    | _ :: _ =>
        (mkBridge (bridgeType b) (Some tcp)
                  (wrap64 (BytesSent b + Z.of_nat (length (t_data o))))
                  (BytesReceived b) (target b),
         [QuicWrite (t_data o)], if tfailed o then Return else Continue)
    end.
Proof.
  intros Hc. unfold tcpToQUIC, tfailed. rewrite Hc.
  destruct (t_data o) as [|x d]; [reflexivity|].
  change (0 <? Z.of_nat (length (x :: d))) with true. cbv iota.
  destruct (t_werr o); reflexivity.
Qed.

(** X14.  Once the backend is dialed, the TCP -> QUIC loop writes to the stream
    the chunks it reads from the backend, in order and unchanged, up to and
    including its first failing turn; [BytesSent] counts them; and the loop
    returns exactly when a turn fails. *)
Theorem tcpToQUIC_delivers_what_it_reads (script : list TcpTurn) : forall b tcp,
  tcpConn b = Some tcp ->
  - 2 ^ 63 <= BytesSent b < 2 ^ 63 ->
  written (loop tcpToQUIC b script).1.2 = concat (t_data <$> tupto script)
  /\ BytesSent (loop tcpToQUIC b script).1.1
     = wrap64 (BytesSent b + Z.of_nat (length (concat (t_data <$> tupto script))))
  /\ ((loop tcpToQUIC b script).2 = Returned <-> existsb tfailed script = true).
Proof.
  induction script as [|o script IH]; intros b tcp Hc Hb.
  - cbn. rewrite Z.add_0_r, wrap64_small by exact Hb. repeat split; discriminate.
  - cbn [loop tupto existsb]. rewrite (tcpToQUIC_connected b o tcp Hc).
    destruct (t_data o) as [|x d] eqn:Hd.
    + destruct (tfailed o).
      * cbn. rewrite Hd. cbn. rewrite Z.add_0_r, wrap64_small by exact Hb. tauto.
      * specialize (IH b tcp Hc Hb).
        destruct (loop tcpToQUIC b script) as [[b' es] st].
        cbn [fst snd fmap list_fmap concat app orb] in *. rewrite Hd. exact IH.
    + destruct (tfailed o).
      * cbn. rewrite Hd, !app_nil_r. tauto.
      * match goal with
        | |- context [loop tcpToQUIC ?b1 script] =>
            specialize (IH b1 tcp eq_refl (wrap64_range _));
            destruct (loop tcpToQUIC b1 script) as [[b' es] st]
        end.
        cbn [fst snd fmap list_fmap concat orb BytesSent] in *.
        destruct IH as (Hw & Hs & Hr). rewrite written_app, Hw, Hs, wrap64_add, Hd.
        unfold written at 1. cbn [fmap list_fmap concat]. rewrite app_nil_r.
        repeat split; try apply Hr.
        rewrite length_app, Nat2Z.inj_add. f_equal. lia.
Qed.

(** X15.  Without a backend the TCP -> QUIC loop only sleeps and never returns.
    After a failed dial the bridge has no backend: the QUIC -> TCP loop has
    returned, and its sibling goes on sleeping whatever happens, so the
    bridge never completes. *)
Theorem failed_dial_leaves_a_sleeping_loop b (o : QuicTurn Conn) (script : list TcpTurn) :
  tcpConn b = None -> q_data o <> [] -> q_dial o = None ->
  (quicToTCP b o).2 = Return
  /\ loop tcpToQUIC (quicToTCP b o).1.1 script
     = ((quicToTCP b o).1.1, replicate (length script) Sleep, Blocked).
Proof.
  intros Hc Hd Hdial.
  rewrite (BridgeFacts.quicToTCP_dial_error b o Hc Hd Hdial). cbn [fst snd].
  split; [reflexivity|].
  induction script as [|t script IH]; [reflexivity|].
  cbn [loop length replicate]. unfold tcpToQUIC at 1. cbn [tcpConn].
  rewrite IH. reflexivity.
Qed.

(** *** WebSocket frames from one bridge to another *)

Lemma messages_app (es es' : list (event Conn)) :
  messages (es ++ es') = messages es ++ messages es'.
Proof. unfold messages. apply omap_app. Qed.

Lemma tcpToWS_turn b (o : TcpTurn) :
  tcpToWS b o
  = match t_data o with
    | [] => (b, [], if tfailed o then Return else Continue)
    | _ :: _ =>
        (mkBridge (bridgeType b) (tcpConn b)
                  (wrap64 (BytesSent b + Z.of_nat (length (t_data o))))
                  (BytesReceived b) (target b),
         [WsWriteMessage (writeWSFrame 1 (t_data o))],
         if tfailed o then Return else Continue)
    end.
Proof.
  unfold tcpToWS, tfailed. destruct (t_data o) as [|x d]; [reflexivity|].
  change (0 <? Z.of_nat (length (x :: d))) with true. cbv iota.
  destruct (t_werr o); reflexivity.
Qed.

(** The non-empty chunks of the turns a TCP-reading loop goes through. *)
Definition chunks (script : list TcpTurn) : list (list byte) :=
  omap (fun o => match t_data o with [] => None | d => Some d end) (tupto script).

Lemma concat_chunks (script : list TcpTurn) :
  concat (chunks script) = concat (t_data <$> tupto script).
Proof.
  unfold chunks. induction (tupto script) as [|o l IH]; [reflexivity|].
  cbn [omap list_omap fmap list_fmap concat].
  destruct (t_data o) as [|x d]; cbn [concat]; rewrite IH; reflexivity.
Qed.

(** The messages of the TCP -> WS loop: one frame for stream 1 per
    non-empty chunk. *)
Lemma tcpToWS_messages (script : list TcpTurn) : forall b,
  messages (loop tcpToWS b script).1.2 = writeWSFrame 1 <$> chunks script.
Proof.
  unfold chunks.
  induction script as [|o script IH]; intros b; [reflexivity|].
  cbn [loop tupto]. rewrite tcpToWS_turn.
  destruct (t_data o) as [|x d] eqn:Hd.
  - destruct (tfailed o).
    + cbn. rewrite Hd. reflexivity.
    + specialize (IH b). destruct (loop tcpToWS b script) as [[b' es] st].
      cbn [fst snd omap list_omap] in *. rewrite Hd. exact IH.
  - destruct (tfailed o).
    + cbn. rewrite Hd. reflexivity.
    + match goal with
      | |- context [loop tcpToWS ?b1 script] =>
          specialize (IH b1); destruct (loop tcpToWS b1 script) as [[b' es] st]
      end.
      cbn [fst snd omap list_omap] in *. rewrite Hd, messages_app, IH. reflexivity.
Qed.

(** A WebSocket message as the receiving loop finds it: binary, read
    without error, and written to the backend in full. *)
Definition received (msg : list byte) : WsTurn :=
  mkWsTurn false BinaryMessage msg (Z.of_nat (length msg) - 8) false.

Lemma wsToTCP_frame b tcp (data : list byte) :
  tcpConn b = Some tcp ->
  Z.of_nat (length data) < 2 ^ 32 ->
  wsToTCP b (received (writeWSFrame 1 data))
  = (mkBridge (bridgeType b) (Some tcp) (BytesSent b)
              (wrap64 (BytesReceived b + (Z.of_nat (length (writeWSFrame 1 data)) - 8)))
              (target b),
     [TcpWrite tcp data], Continue).
Proof.
  intros Hc Hlen. unfold wsToTCP, received. cbn [w_err w_mt w_msg w_n w_werr].
  rewrite FrameMore.read_written_frame.
  rewrite (Z.mod_small (Z.of_nat (length data))) by lia.
  rewrite Nat2Z.id, firstn_all. rewrite Hc. reflexivity.
Qed.

Lemma wsToTCP_frames (ds : list (list byte)) : forall b tcp,
  tcpConn b = Some tcp ->
  Forall (fun d => Z.of_nat (length d) < 2 ^ 32) ds ->
  forwarded (loop wsToTCP b (received <$> (writeWSFrame 1 <$> ds))).1.2 = concat ds
  /\ (loop wsToTCP b (received <$> (writeWSFrame 1 <$> ds))).2 = Blocked.
Proof.
  induction ds as [|d ds IH]; intros b tcp Hc Hs; [split; reflexivity|].
  apply Forall_cons in Hs as [Hd Hs].
  cbn [fmap list_fmap loop]. rewrite (wsToTCP_frame b tcp d Hc Hd).
  match goal with
  | |- context [loop wsToTCP ?b1 _] =>
      specialize (IH b1 tcp eq_refl Hs);
      destruct (loop wsToTCP b1 (received <$> (writeWSFrame 1 <$> ds))) as [[b' es] st]
  end.
  cbn [fst snd] in *. destruct IH as [IH1 IH2].
  change (TcpWrite tcp d :: es) with ([TcpWrite tcp d] ++ es).
  rewrite forwarded_app, IH1. unfold forwarded at 1. cbn [fmap list_fmap concat].
  rewrite app_nil_r. auto.
Qed.

(** X16.  Byte fidelity across the WebSocket framing: the messages one bridge
    writes for the chunks it reads from its backend (each shorter than
    [2^32] bytes), received in order by the WS -> TCP loop of a bridge with a
    backend, make that loop write exactly those bytes to its backend, and
    leave it waiting for the next message. *)
Theorem ws_frames_carry_the_bytes
    (script : list TcpTurn) (sender receiver : Bridge Conn) tcp :
  tcpConn receiver = Some tcp ->
  Forall (fun o => Z.of_nat (length (t_data o)) < 2 ^ 32) script ->
  forwarded
    (loop wsToTCP receiver
       (received <$> messages (loop tcpToWS sender script).1.2)).1.2
  = concat (t_data <$> tupto script)
  /\ (loop wsToTCP receiver
        (received <$> messages (loop tcpToWS sender script).1.2)).2 = Blocked.
Proof.
  intros Hc Hs. rewrite tcpToWS_messages, <- concat_chunks.
  apply (wsToTCP_frames (chunks script) receiver tcp Hc).
  unfold chunks. clear -Hs.
  induction Hs as [|o script Ho _ IH]; [constructor|].
  cbn [tupto omap list_omap].
  assert (Hrest : Forall (fun d => Z.of_nat (length d) < 2 ^ 32)
                    (omap (fun o => match t_data o with [] => None | d => Some d end)
                          (if tfailed o then [] else tupto script))).
  { destruct (tfailed o); [constructor | exact IH]. }
  destruct (t_data o) as [|x d]; [exact Hrest|]. constructor; assumption.
Qed.

(** X17.  A message that is not binary, and a frame written for a stream other
    than 1, are dropped: nothing is written, no counter moves, and the loop
    goes on. *)
Theorem wsToTCP_drops_foreign_messages b (o : WsTurn) :
  w_err o = false ->
  w_mt o <> BinaryMessage
  \/ (exists streamID data,
        w_msg o = writeWSFrame streamID data
        /\ streamID mod 2 ^ 32 <> 1) ->
  wsToTCP b o = (b, [], Continue).
Proof.
  intros He Hcase. unfold wsToTCP. rewrite He.
  destruct Hcase as [Hmt|(streamID & data & -> & Hid)].
  - destruct (Z.eqb_spec (w_mt o) BinaryMessage); [contradiction | reflexivity].
  - destruct (w_mt o =? BinaryMessage); [|reflexivity].
    rewrite FrameMore.read_written_frame. cbn [negb].
    destruct (Z.eqb_spec (streamID mod 2 ^ 32) 1); [contradiction | reflexivity].
Qed.

End WithConn.

Lemma BytesReceived_counts_forwarded_bytes_witness :
  BytesReceived
    (loop quicToTCP (NewQUICBridge None)
       [mkQuicTurn (list_byte_of_string "127.0.0.1:9000") false (Some 1%nat) false;
        mkQuicTurn (list_byte_of_string "ping") false None false]).1.1
  = wrap64
      (BytesReceived (NewQUICBridge (Conn := nat) None)
       + Z.of_nat
           (length
              (forwarded
                 (loop quicToTCP (NewQUICBridge None)
                    [mkQuicTurn (list_byte_of_string "127.0.0.1:9000") false
                       (Some 1%nat) false;
                     mkQuicTurn (list_byte_of_string "ping") false None false]).1.2))).
Proof.
  apply (BytesReceived_counts_forwarded_bytes
           [mkQuicTurn (list_byte_of_string "127.0.0.1:9000") false (Some 1%nat) false;
            mkQuicTurn (list_byte_of_string "ping") false None false]
           (NewQUICBridge None)).
  cbn. lia.
Defined.

Lemma tcpToQUIC_delivers_what_it_reads_witness :
  written (loop tcpToQUIC (NewQUICBridge (Some 1%nat))
             [mkTcpTurn (list_byte_of_string "po") false false;
              mkTcpTurn (list_byte_of_string "ng") true false;
              mkTcpTurn (list_byte_of_string "late") false false]).1.2
  = concat (t_data <$> tupto [mkTcpTurn (list_byte_of_string "po") false false;
                              mkTcpTurn (list_byte_of_string "ng") true false;
                              mkTcpTurn (list_byte_of_string "late") false false])
  /\ BytesSent (loop tcpToQUIC (NewQUICBridge (Some 1%nat))
                  [mkTcpTurn (list_byte_of_string "po") false false;
                   mkTcpTurn (list_byte_of_string "ng") true false;
                   mkTcpTurn (list_byte_of_string "late") false false]).1.1
     = wrap64 (BytesSent (NewQUICBridge (Some 1%nat))
               + Z.of_nat (length (concat (t_data <$> tupto
                   [mkTcpTurn (list_byte_of_string "po") false false;
                    mkTcpTurn (list_byte_of_string "ng") true false;
                    mkTcpTurn (list_byte_of_string "late") false false]))))
  /\ ((loop tcpToQUIC (NewQUICBridge (Some 1%nat))
         [mkTcpTurn (list_byte_of_string "po") false false;
          mkTcpTurn (list_byte_of_string "ng") true false;
          mkTcpTurn (list_byte_of_string "late") false false]).2 = Returned
      <-> existsb tfailed [mkTcpTurn (list_byte_of_string "po") false false;
                           mkTcpTurn (list_byte_of_string "ng") true false;
                           mkTcpTurn (list_byte_of_string "late") false false] = true).
Proof.
  apply (tcpToQUIC_delivers_what_it_reads
           [mkTcpTurn (list_byte_of_string "po") false false;
            mkTcpTurn (list_byte_of_string "ng") true false;
            mkTcpTurn (list_byte_of_string "late") false false]
           (NewQUICBridge (Some 1%nat)) 1%nat).
  - reflexivity.
  - cbn. lia.
Defined.

(** The bytes that reach the stream in the script above: the chunk read
    together with the error is still written, the one after it is not. *)
Example tcpToQUIC_stops_after_the_error :
  written (loop tcpToQUIC (NewQUICBridge (Some 1%nat))
             [mkTcpTurn (list_byte_of_string "po") false false;
              mkTcpTurn (list_byte_of_string "ng") true false;
              mkTcpTurn (list_byte_of_string "late") false false]).1.2
  = list_byte_of_string "pong".
Proof. reflexivity. Qed.

Lemma failed_dial_leaves_a_sleeping_loop_witness :
  (quicToTCP (NewQUICBridge (Conn := nat) None)
     (mkQuicTurn (list_byte_of_string "127.0.0.1:9") false None false)).2 = Return
  /\ loop tcpToQUIC
       (quicToTCP (NewQUICBridge (Conn := nat) None)
          (mkQuicTurn (list_byte_of_string "127.0.0.1:9") false None false)).1.1
       [mkTcpTurn [] true false; mkTcpTurn [] true false]
     = ((quicToTCP (NewQUICBridge (Conn := nat) None)
           (mkQuicTurn (list_byte_of_string "127.0.0.1:9") false None false)).1.1,
        replicate (length [mkTcpTurn [] true false; mkTcpTurn [] true false]) Sleep,
        Blocked).
Proof.
  apply (failed_dial_leaves_a_sleeping_loop
           (NewQUICBridge (Conn := nat) None)
           (mkQuicTurn (list_byte_of_string "127.0.0.1:9") false None false)
           [mkTcpTurn [] true false; mkTcpTurn [] true false]).
  - reflexivity.
  - discriminate.
  - reflexivity.
Defined.

Lemma ws_frames_carry_the_bytes_witness :
  forwarded
    (loop wsToTCP (NewWSBridge 2%nat)
       (received <$> messages
          (loop tcpToWS (NewWSBridge 1%nat)
             [mkTcpTurn (list_byte_of_string "he") false false;
              mkTcpTurn [] false false;
              mkTcpTurn (list_byte_of_string "llo") true false]).1.2)).1.2
  = concat (t_data <$> tupto [mkTcpTurn (list_byte_of_string "he") false false;
                              mkTcpTurn [] false false;
                              mkTcpTurn (list_byte_of_string "llo") true false])
  /\ (loop wsToTCP (NewWSBridge 2%nat)
        (received <$> messages
           (loop tcpToWS (NewWSBridge 1%nat)
              [mkTcpTurn (list_byte_of_string "he") false false;
               mkTcpTurn [] false false;
               mkTcpTurn (list_byte_of_string "llo") true false]).1.2)).2 = Blocked.
Proof.
  apply (ws_frames_carry_the_bytes
           [mkTcpTurn (list_byte_of_string "he") false false;
            mkTcpTurn [] false false;
            mkTcpTurn (list_byte_of_string "llo") true false]
           (NewWSBridge 1%nat) (NewWSBridge 2%nat) 2%nat).
  - reflexivity.
  - repeat constructor.
Defined.

Lemma wsToTCP_drops_foreign_messages_witness :
  wsToTCP (NewWSBridge 1%nat)
    (mkWsTurn false BinaryMessage (writeWSFrame 2 [x68; x69]) 2 false)
  = (NewWSBridge 1%nat, [], Continue).
Proof.
  apply (wsToTCP_drops_foreign_messages (NewWSBridge 1%nat)
           (mkWsTurn false BinaryMessage (writeWSFrame 2 [x68; x69]) 2 false)).
  - reflexivity.
  - right. exists 2, [x68; x69]. split; [reflexivity | discriminate].
Defined.

End BridgeMore.

(** ** More of the server: the reaper's scan, what a run can emit, and the
    WebSocket handler with the pool it is given *)

Module ServerMore.

Import GoStrings GoNet Authorizer Pool Bridge Server.

Section WithLibs.

Context `{Net : IPLib} {Conn : Type}.

Implicit Types (s : Server Conn) (st : sessionState Conn).

(** X18.  One scan of the reaper: a session stays, unchanged, exactly when its
    [lastActive] is at most 30 seconds old, and the connections closed with
    "idle timeout" are exactly those of the sessions that go. *)
Theorem ReaperTick_closes_exactly_the_idle_sessions s (now : Z) (addr : string) :
  sessions (step s (ReaperTick now)).1 !! addr
  = match sessions s !! addr with
    | Some st => if decide (now - lastActive st > idleTimeout) then None else Some st
    | None => None
    end
  /\ (CloseWithError addr 0 "idle timeout" ∈ (step s (ReaperTick now)).2
      <-> exists st, sessions s !! addr = Some st /\ now - lastActive st > idleTimeout).
Proof.
  split; [apply ServerFacts.ReaperTick_sessions|].
  cbn [step snd]. rewrite list_elem_of_fmap. split.
  - intros ([addr' st] & Heq & Hin). injection Heq as ->.
    apply elem_of_map_to_list, map_lookup_filter_Some in Hin as [Hs Hold].
    exists st. split; [exact Hs | exact Hold].
  - intros (st & Hs & Hold). exists (addr, st). split; [reflexivity|].
    apply elem_of_map_to_list, map_lookup_filter_Some. split; [exact Hs | exact Hold].
Qed.

(** The application error code an output carries, if it carries one. *)
Definition errorCode (o : output Conn) : option Z :=
  match o with
  | CloseWithError _ code _ => Some code
  | OnStream _ _ (CancelRead code) | OnStream _ _ (CancelWrite code) => Some code
  | OnStream _ _ _ => None
  end.

Lemma quicToTCP_no_code (b : Bridge Conn) (q : QuicTurn Conn) (addr : string) (id : Z) :
  Forall (fun o => errorCode o = None) (OnStream addr id <$> (quicToTCP b q).1.2).
Proof.
  unfold quicToTCP.
  repeat match goal with
         | |- context [if ?c then _ else _] => destruct c
         | |- context [match ?x with Some _ => _ | None => _ end] => destruct x
         end; cbn; repeat constructor.
Qed.

Lemma tcpToQUIC_no_code (b : Bridge Conn) (t : TcpTurn) (addr : string) (id : Z) :
  Forall (fun o => errorCode o = None) (OnStream addr id <$> (tcpToQUIC b t).1.2).
Proof.
  unfold tcpToQUIC.
  repeat match goal with
         | |- context [if ?c then _ else _] => destruct c
         | |- context [match ?x with Some _ => _ | None => _ end] => destruct x
         end; cbn; repeat constructor.
Qed.

Lemma step_codes s (i : input Conn) :
  Forall (fun o => forall code, errorCode o = Some code -> code = 0) (step s i).2.
Proof.
  assert (Hnone : forall l : list (output Conn),
            Forall (fun o => errorCode o = None) l ->
            Forall (fun o => forall code, errorCode o = Some code -> code = 0) l).
  { intros l H. apply (Forall_impl _ _ _ H). intros o -> code. discriminate. }
  destruct i as [addr now|addr id now|addr|addr id now q|addr id now t|addr id|now];
    cbn [step].
  - constructor.
  - destruct (sessions s !! addr); constructor.
  - repeat constructor. cbn. congruence.
  - unfold onBridge. destruct (sessions s !! addr) as [st|]; [|constructor].
    destruct (streams st !! id) as [b|]; [|constructor].
    pose proof (quicToTCP_no_code b q addr id) as H.
    destruct (quicToTCP b q) as [[b1 es] c]. apply Hnone, H.
  - unfold onBridge. destruct (sessions s !! addr) as [st|]; [|constructor].
    destruct (streams st !! id) as [b|]; [|constructor].
    pose proof (tcpToQUIC_no_code b t addr id) as H.
    destruct (tcpToQUIC b t) as [[b1 es] c]. apply Hnone, H.
  - destruct (sessions s !! addr) as [st|]; [|constructor].
    destruct (streams st !! id) as [b|]; [|constructor].
    cbn [snd]. unfold Close.
    destruct (bridgeType b), (tcpConn b); cbn; repeat constructor; cbn; congruence.
  - cbn [snd]. apply Forall_fmap, Forall_forall. intros [a st] _ code. cbn. congruence.
Qed.

(** X19.  Whatever happens on the QUIC side, every application error code the
    server sends, on a connection or on a stream, is 0. *)
Theorem every_error_code_is_zero (inputs : list (input Conn)) : forall s (o : output Conn) (code : Z),
  o ∈ (run s inputs).2 -> errorCode o = Some code -> code = 0.
Proof.
  induction inputs as [|i inputs IH]; intros s o code Hin Hc.
  - cbn in Hin. inversion Hin.
  - cbn [run] in Hin. pose proof (step_codes s i) as Hstep.
    destruct (step s i) as [s1 out]. specialize (IH s1 o code).
    destruct (run s1 inputs) as [s2 out']. cbn [snd] in *.
    apply elem_of_app in Hin as [Hin|Hin].
    + rewrite Forall_forall in Hstep. exact (Hstep o Hin code Hc).
    + exact (IH Hin Hc).
Qed.

Lemma step_AllowedTargets s (i : input Conn) :
  AllowedTargets (step s i).1 = AllowedTargets s.
Proof.
  destruct i; cbn [step]; unfold onBridge;
    repeat match goal with
           | |- context [match ?x with Some _ => _ | None => _ end] => destruct x
           | |- context [let '(_, _) := ?x in _] => destruct x
           end; reflexivity.
Qed.

(** X20.  The QUIC side of the server does not depend on the allow-list: with
    the same sessions, any two allow-lists give the same effects and the
    same sessions, whatever the inputs. *)
Theorem run_ignores_AllowedTargets (inputs : list (input Conn)) :
  forall (allowed allowed' : list string) (ss : gmap string (sessionState Conn)),
  (run (mkServer allowed ss) inputs).2 = (run (mkServer allowed' ss) inputs).2
  /\ sessions (run (mkServer allowed ss) inputs).1
     = sessions (run (mkServer allowed' ss) inputs).1.
Proof.
  induction inputs as [|i inputs IH]; intros allowed allowed' ss; [split; reflexivity|].
  cbn [run].
  destruct (ServerFacts.step_ignores_AllowedTargets allowed allowed' ss i) as [Hout Hss].
  pose proof (step_AllowedTargets (mkServer allowed ss) i) as Ha.
  pose proof (step_AllowedTargets (mkServer allowed' ss) i) as Ha'.
  destruct (step (mkServer allowed ss) i) as [[a1 ss1] out1].
  destruct (step (mkServer allowed' ss) i) as [[a1' ss1'] out1'].
  cbn [fst snd sessions AllowedTargets] in *. subst.
  specialize (IH allowed allowed' ss1') as [IH1 IH2].
  destruct (run (mkServer allowed ss1') inputs) as [s2 out2].
  destruct (run (mkServer allowed' ss1') inputs) as [s2' out2'].
  cbn [fst snd] in *. subst. auto.
Qed.

(** X21.  No input but the acceptance of the session or of a stream on it
    changes [lastActive] of a session that stays in the table. *)
Theorem lastActive_moves_only_on_accept s (i : input Conn) (addr : string) st st' :
  sessions s !! addr = Some st ->
  sessions (step s i).1 !! addr = Some st' ->
  lastActive st' = lastActive st
  \/ (exists now, i = SessionAccepted addr now /\ lastActive st' = now)
  \/ (exists id now, i = StreamAccepted addr id now /\ lastActive st' = now).
Proof.
  intros Hs Hs'.
  destruct i as [a now|a id now|a|a id now q|a id now t|a id|now]; cbn [step] in Hs'.
  - cbn [fst sessions] in Hs'. rewrite lookup_insert in Hs'.
    destruct (decide (a = addr)) as [->|_].
    + injection Hs' as <-. right. left. eauto.
    + left. congruence.
  - destruct (sessions s !! a) as [sa|] eqn:Ha; [|left; cbn in Hs'; congruence].
    cbn [fst sessions] in Hs'. rewrite lookup_insert in Hs'.
    destruct (decide (a = addr)) as [->|_].
    + injection Hs' as <-. right. right. eauto.
    + left. congruence.
  - cbn [fst sessions] in Hs'. rewrite lookup_delete in Hs'.
    destruct (decide (a = addr)); [discriminate | left; congruence].
  - left. pose proof (ServerFacts.onBridge_lastActive s a addr id
                        (fun b => (quicToTCP b q).1)) as H.
    rewrite Hs, Hs' in H. cbn in H. congruence.
  - left. pose proof (ServerFacts.onBridge_lastActive s a addr id
                        (fun b => (tcpToQUIC b t).1)) as H.
    rewrite Hs, Hs' in H. cbn in H. congruence.
  - left. destruct (sessions s !! a) as [sa|] eqn:Ha; [|cbn in Hs'; congruence].
    destruct (streams sa !! id) as [b|]; [|cbn in Hs'; congruence].
    cbn [fst sessions] in Hs'. rewrite lookup_insert in Hs'.
    destruct (decide (a = addr)) as [->|_]; [|congruence].
    injection Hs' as <-. cbn. congruence.
  - left. cbn [fst sessions] in Hs'.
    apply map_lookup_filter_Some in Hs' as [Hs' _]. congruence.
Qed.

End WithLibs.

Lemma every_error_code_is_zero_witness : (0 : Z) = 0.
Proof.
  apply (every_error_code_is_zero (Conn := nat)
           [SessionAccepted ServerFacts.client 0; ReaperTick (ServerFacts.seconds 40)]
           (New [])
           (CloseWithError ServerFacts.client 0 "idle timeout") 0).
  - vm_compute. apply list_elem_of_here.
  - reflexivity.
Defined.

Lemma lastActive_moves_only_on_accept_witness :
  lastActive (mkSession (<[0 := NewQUICBridge (Conn := nat) None]> ∅) 7)
  = lastActive (mkSession (<[0 := NewQUICBridge (Conn := nat) None]> ∅) 7)
  \/ (exists now,
        TcpTurn_ (Conn := nat) ServerFacts.client 0 9 (mkTcpTurn [x68] false false)
        = SessionAccepted (Conn := nat) ServerFacts.client now
        /\ lastActive (mkSession (<[0 := NewQUICBridge (Conn := nat) None]> ∅) 7) = now)
  \/ (exists id now,
        TcpTurn_ (Conn := nat) ServerFacts.client 0 9 (mkTcpTurn [x68] false false)
        = StreamAccepted (Conn := nat) ServerFacts.client id now
        /\ lastActive (mkSession (<[0 := NewQUICBridge (Conn := nat) None]> ∅) 7) = now).
Proof.
  apply (lastActive_moves_only_on_accept
           (mkServer [] (<[ServerFacts.client :=
                             mkSession (<[0 := NewQUICBridge (Conn := nat) None]> ∅) 7]> ∅))
           (TcpTurn_ (Conn := nat) ServerFacts.client 0 9 (mkTcpTurn [x68] false false))
           ServerFacts.client
           (mkSession (<[0 := NewQUICBridge (Conn := nat) None]> ∅) 7)
           (mkSession (<[0 := NewQUICBridge (Conn := nat) None]> ∅) 7)).
  - reflexivity.
  - reflexivity.
Defined.

End ServerMore.

(** ** The WebSocket handler, from the command line to the pool *)

Module Gateway.

Import GoStrings GoNet Authorizer Pool.

(** [config.Config], without the TLS certificate. *)
Record Config : Type := mkConfig {
  Addr : string;
  AllowedTargets : list string;
  ReadTimeout : Z;
  ShowVersion : bool;
  RunTest : bool;
  ConfigPath : string;
  Verbose : string;
  QUICAddr : string;
  EnableWSS : bool;
  TCPPoolSize : Z
}.

(** The flags [main.Parse] declares, as the [flag] package hands them
    over: [None] for a flag the command line does not give. *)
Record Flags : Type := mkFlags {
  flag_addr : option string;
  flag_quic : option string;
  flag_selftest : option bool;
  flag_verbose : option string
}.

(** [Parse] of [cmd/anylink/main.go]: the four flags with their defaults;
    every other field of the configuration keeps its zero value. *)
Definition Parse (f : Flags) : Config :=
  mkConfig (default ":8080" (flag_addr f)) [] 0 false
           (default false (flag_selftest f)) EmptyString
           (default "debug" (flag_verbose f))
           (default ":4242" (flag_quic f)) false 0.

(** [strings.TrimPrefix]. *)
Definition TrimPrefix (s prefix : string) : string :=
  if HasPrefix s prefix then drop_bytes (String.length prefix) s else s.

(** [extractTarget], from [r.URL.Path] and [r.URL.Query().Get("target")]. *)
Definition extractTarget (path query : string) : option string :=
  let path := TrimPrefix path "/" in
  if negb (String.eqb path EmptyString) && ContainsByte path ":" then Some path
  else if negb (String.eqb query EmptyString) then Some query
  else None.

Section WithLibs.

Context `{Net : IPLib} {Conn : Type}.

(** The part of [Server] the WebSocket handler uses. *)
Record Server : Type := mkServer {
  cfg : Config;
  tcpPool : TCPPool Conn
}.

(** [server.New]. *)
Definition New (cfg : Config) : Server := mkServer cfg (NewTCPPool (TCPPoolSize cfg)).

(** How the handler of [Start] ends.  [Bridged tcp]: a bridge ran on the
    connection [tcp], which was then put back. *)
Inductive wsResult : Type :=
  | StatusBadRequest            (* 400 missing target *)
  | StatusForbidden             (* 403 target not allowed *)
  | UpgradeError
  | CloseConnectFailed          (* close frame 1011, "connect failed" *)
  | Bridged (tcp : Conn)
  | HandlerPanic.

(** The handler for one request: what the request carries, whether the
    upgrade succeeds, and what dialing a backend gives.  The result, and
    the pool afterwards. *)
Definition handle (s : Server) (path query : string) (upgraded : bool)
    (dial : string -> option Conn) : wsResult * TCPPool Conn :=
  let rules := default [] (compileRules (AllowedTargets (cfg s))) in
  match extractTarget path query with
  | None => (StatusBadRequest, tcpPool s)
  | Some target =>
      if negb (isAllowedEnhanced rules target) then (StatusForbidden, tcpPool s)
      else if negb upgraded then (UpgradeError, tcpPool s)
      else
        match Get (tcpPool s) target with
        | (NoBackends, p) => (CloseConnectFailed, p)
        | (Panic, p) => (HandlerPanic, p)
        | (Pooled _ tcp, p) => (Bridged tcp, (Put p target tcp).1)
        | (Dial backend, p) =>
            match dial backend with
            | None => (CloseConnectFailed, p)
            | Some tcp => (Bridged tcp, (Put p target tcp).1)
            end
        end
  end.

(** X22.  [server.New] gives the pool no backends, and nothing adds any: the
    handler of a new server never reaches a backend.  Whatever the
    configuration and the request, it answers 400 or 403, fails to
    upgrade, or closes with "connect failed", and leaves the pool as it
    was. *)
Theorem new_server_never_bridges (c : Config) (path query : string) (upgraded : bool)
    (dial : string -> option Conn) :
  match (handle (New c) path query upgraded dial).1 with
  | Bridged _ | HandlerPanic => False
  | _ => True
  end
  /\ (handle (New c) path query upgraded dial).2 = NewTCPPool (TCPPoolSize c).
Proof.
  unfold handle, New. cbn [cfg tcpPool].
  destruct (extractTarget path query) as [target|]; [|split; [exact I | reflexivity]].
  destruct (negb (isAllowedEnhanced _ target)); [split; [exact I | reflexivity]|].
  destruct (negb upgraded); [split; [exact I | reflexivity]|].
  unfold Get, NewTCPPool. cbn [backends]. rewrite lookup_empty.
  split; [exact I | reflexivity].
Qed.

(** X23.  The server [main] builds has no allow-list and a pool of size 0,
    whatever the command line: its handler denies no target (a request
    that names a target goes on to the upgrade), and a connection put back
    in its pool is closed, never kept. *)
Theorem main_server_allows_everything_and_pools_nothing
    (f : Flags) (path query : string) (upgraded : bool) (dial : string -> option Conn)
    (key : string) (conn : Conn) :
  (handle (New (Parse f)) path query upgraded dial).1
  = match extractTarget path query with
    | None => StatusBadRequest
    | Some _ => if upgraded then CloseConnectFailed else UpgradeError
    end
  /\ Put (tcpPool (New (Parse f))) key conn = (tcpPool (New (Parse f)), true).
Proof.
  split.
  - unfold handle, New, Parse. cbn [cfg tcpPool AllowedTargets TCPPoolSize compileRules].
    destruct (extractTarget path query) as [target|]; [|reflexivity].
    cbn [default isAllowedEnhanced negb]. destruct upgraded; reflexivity.
  - reflexivity.
Qed.

End WithLibs.

(** What the handler takes as the target. *)
Example extractTarget_cases :
  extractTarget "/127.0.0.1:9000" EmptyString = Some "127.0.0.1:9000"
  /\ extractTarget "/" "db.internal:5432" = Some "db.internal:5432"
  /\ extractTarget "/a:1/b" "db.internal:5432" = Some "a:1/b"
  /\ extractTarget "//a:1" EmptyString = Some "/a:1"
  /\ extractTarget "/status" EmptyString = None.
Proof. repeat split; reflexivity. Qed.

End Gateway.

(** ** More of the metrics registry *)

Module MetricsMore.

Import Metrics.

Lemma wrap64_twice (a n : Z) : wrap64 (wrap64 a + n) = wrap64 (a + n).
Proof.
  unfold wrap64.
  replace ((a + 2 ^ 63) mod 2 ^ 64 - 2 ^ 63 + n + 2 ^ 63)
    with ((a + 2 ^ 63) mod 2 ^ 64 + n) by lia.
  rewrite Zplus_mod_idemp_l. do 2 f_equal. lia.
Qed.

(** X24.  The set of registered streams changes by [RegisterStream] only:
    [AddBytes] and [AddError] keep it, whether or not the id is registered,
    and [RegisterStream] adds its id. *)
Theorem registered_ids (m : MetricsManager) (id : string) (sent recv now : Z) :
  dom (AddBytes m id sent recv now) = dom m
  /\ dom (AddError m id) = dom m
  /\ dom (RegisterStream m id now) = {[id]} ∪ dom m.
Proof.
  unfold AddBytes, AddError, RegisterStream.
  destruct (m !! id) as [s|] eqn:Hid.
  - assert (Hin : id ∈ dom m) by (apply elem_of_dom; eauto).
    rewrite !dom_insert_lookup_L by eauto. repeat split.
    symmetry. apply subseteq_union_1_L, singleton_subseteq_l, Hin.
  - rewrite dom_insert_L. repeat split; reflexivity.
Qed.

(** X25.  Two calls of [AddBytes] for a stream count as one call with the sums
    (in 64-bit arithmetic); the later clock reading stays. *)
Theorem AddBytes_adds_up (m : MetricsManager) (id : string)
    (sent1 recv1 now1 sent2 recv2 now2 : Z) :
  AddBytes (AddBytes m id sent1 recv1 now1) id sent2 recv2 now2
  = AddBytes m id (sent1 + sent2) (recv1 + recv2) now2.
Proof.
  unfold AddBytes. destruct (m !! id) as [s|] eqn:Hid.
  - rewrite lookup_insert_eq, insert_insert_eq. cbn [BytesSent BytesReceived Errors].
    rewrite !wrap64_twice, !Z.add_assoc. reflexivity.
  - rewrite Hid. reflexivity.
Qed.

(** X26.  Registering a stream again changes nothing: its counters and its
    first clock reading stay. *)
Theorem RegisterStream_again (m : MetricsManager) (id : string) (now1 now2 : Z) :
  RegisterStream (RegisterStream m id now1) id now2 = RegisterStream m id now1.
Proof.
  unfold RegisterStream. destruct (m !! id) as [s|] eqn:Hid.
  - rewrite Hid. reflexivity.
  - rewrite lookup_insert_eq. reflexivity.
Qed.




End MetricsMore.

(** ** The logger's levels ([internal/logger]) *)

Module Logger.

(** [Level], by its [iota] value. *)
Definition LevelQuiet : Z := 0.
Definition LevelError : Z := 1.
Definition LevelInfo : Z := 2.
Definition LevelDebug : Z := 3.
Definition LevelTrace : Z := 4.

(** [SetLevel]: the global level it sets. *)
Definition SetLevel (level : string) : Z :=
  if String.eqb level "quiet" then LevelQuiet
  else if String.eqb level "error" then LevelError
  else if String.eqb level "info" then LevelInfo
  else if String.eqb level "debug" then LevelDebug
  else if String.eqb level "trace" then LevelTrace
  else LevelDebug. (* Default to debug for backwards compatibility *)

(** [shouldLog], under the global level [globalLevel]. *)
Definition shouldLog (globalLevel level : Z) : bool := level <=? globalLevel.

(** [formatMessage], given the text [msg] that [fmt.Sprintf] made of the
    format and its arguments. *)
Definition formatMessage (prefix level msg : string) : string :=
  if negb (String.eqb prefix EmptyString)
  then "[" +:+ level +:+ "][" +:+ prefix +:+ "] " +:+ msg
  else "[" +:+ level +:+ "] " +:+ msg.

(** The logging methods: the line handed to [log.Printf], if any, and
    whether the process exits. *)
Inductive method : Type := Error | Info | Debug | Trace | Fatal.

Definition log (globalLevel : Z) (prefix : string) (m : method) (msg : string)
  : option string * bool :=
  match m with
  | Error =>
      if shouldLog globalLevel LevelError
      then (Some (formatMessage prefix "ERROR" msg), false) else (None, false)
  | Info =>
      if shouldLog globalLevel LevelInfo
      then (Some (formatMessage prefix "INFO" msg), false) else (None, false)
  | Debug =>
      if shouldLog globalLevel LevelDebug
      then (Some (formatMessage prefix "DEBUG" msg), false) else (None, false)
  | Trace =>
      if shouldLog globalLevel LevelTrace
      then (Some (formatMessage prefix "TRACE" msg), false) else (None, false)
  | Fatal => (Some (formatMessage prefix "FATAL" msg), true)
  end.

(** Whether a method prints under the level a string sets. *)
Definition prints (level : string) (m : method) : bool :=
  match (log (SetLevel level) EmptyString m EmptyString).1 with
  | Some _ => true
  | None => false
  end.

(** X28.  Whatever string sets the level: what prints at a level prints at every
    less verbose one; errors print unless the string is "quiet"; traces
    print only for "trace"; debug lines print for every string that is not
    "quiet", "error" or "info" (an unknown string counts as "debug"); and a
    fatal message always prints. *)
Theorem levels_are_nested (level : string) :
  (prints level Trace = true -> prints level Debug = true)
  /\ (prints level Debug = true -> prints level Info = true)
  /\ (prints level Info = true -> prints level Error = true)
  /\ (prints level Error = true <-> level <> "quiet")
  /\ (prints level Trace = true <-> level = "trace")
  /\ (prints level Debug = true
      <-> level <> "quiet" /\ level <> "error" /\ level <> "info")
  /\ prints level Fatal = true.
Proof.
  unfold prints, log, SetLevel.
  destruct (String.eqb_spec level "quiet") as [->|Hq]; [cbn; intuition congruence|].
  destruct (String.eqb_spec level "error") as [->|He]; [cbn; intuition congruence|].
  destruct (String.eqb_spec level "info") as [->|Hi]; [cbn; intuition congruence|].
  destruct (String.eqb_spec level "debug") as [->|Hd]; [cbn; intuition congruence|].
  destruct (String.eqb_spec level "trace") as [->|Ht]; cbn; intuition congruence.
Qed.

End Logger.

(** ** Certificate rotation ([server.TLSManager]) *)

Module TLSManager.

Section WithCert.

(** [tls.Certificate] and [x509.CertPool]. *)
Context {Certificate CertPool : Type}.

Record TLSManager : Type := mkTLSManager {
  cert : Certificate;
  clientCAs : option CertPool;
  nextProtos : list string;
  enableClientAuth : bool
}.

(** The fields [GetTLSConfig] sets in [tls.Config]. *)
Inductive ClientAuthType : Type := NoClientCert | RequireAndVerifyClientCert.

Record Config : Type := mkConfig {
  Certificates : list Certificate;
  MinVersion : Z;
  NextProtos : list string;
  SessionTicketsDisabled : bool;
  ClientAuth : ClientAuthType;
  ClientCAs : option CertPool
}.

(** [tls.VersionTLS13]. *)
Definition VersionTLS13 : Z := 772.

Definition GetTLSConfig (t : TLSManager) : Config :=
  mkConfig [cert t] VersionTLS13 (nextProtos t) false
           (if enableClientAuth t then RequireAndVerifyClientCert else NoClientCert)
           (if enableClientAuth t then clientCAs t else None).

(** One tick of [rotationLoop]: [generated] is what
    [generateSelfSignedCert] returns, [None] for an error. *)
Definition rotate (t : TLSManager) (generated : option Certificate) : TLSManager :=
  match generated with
  | None => t
  | Some newCert => mkTLSManager newCert (clientCAs t) (nextProtos t) (enableClientAuth t)
  end.

(** [rotationLoop] over the ticks that have fired. *)
Definition rotationLoop (t : TLSManager) (ticks : list (option Certificate)) : TLSManager :=
  fold_left rotate ticks t.

Lemma rotationLoop_fields (t : TLSManager) (ticks : list (option Certificate)) :
  cert (rotationLoop t ticks) = default (cert t) (last (omap id ticks))
  /\ clientCAs (rotationLoop t ticks) = clientCAs t
  /\ nextProtos (rotationLoop t ticks) = nextProtos t
  /\ enableClientAuth (rotationLoop t ticks) = enableClientAuth t.
Proof.
  unfold rotationLoop.
  induction ticks as [|g ticks IH] using rev_ind; [repeat split; reflexivity|].
  rewrite fold_left_app, omap_app. cbn [fold_left].
  destruct IH as (Hc & Hp & Hn & He).
  destruct g as [c|]; cbn [rotate omap list_omap id cert clientCAs nextProtos
                             enableClientAuth].
  - rewrite last_snoc. auto.
  - rewrite app_nil_r. auto.
Qed.

(** X29.  After any number of ticks the certificate served is the one of the
    last rotation that succeeded, the first certificate if none did, and
    nothing else of the configuration has moved. *)
Theorem rotation_keeps_the_last_good_certificate
    (t : TLSManager) (ticks : list (option Certificate)) :
  GetTLSConfig (rotationLoop t ticks)
  = mkConfig [default (cert t) (last (omap id ticks))]
             (MinVersion (GetTLSConfig t)) (NextProtos (GetTLSConfig t))
             (SessionTicketsDisabled (GetTLSConfig t))
             (ClientAuth (GetTLSConfig t)) (ClientCAs (GetTLSConfig t)).
Proof.
  destruct (rotationLoop_fields t ticks) as (Hc & Hp & Hn & He).
  unfold GetTLSConfig. rewrite Hc, Hp, Hn, He. reflexivity.
Qed.

End WithCert.

End TLSManager.

(** ** The configuration parser ([internal/config]) *)

Module ConfigParse.

Import GoStrings Gateway.

(** [60 * time.Second], in nanoseconds. *)
Definition defaultTimeout : Z := 60 * 1000000000.

(** [strings.Split s sep] for a one-byte [sep]. *)
Fixpoint Split (s : string) (sep : ascii) : list string :=
  match s with
  | EmptyString => [EmptyString]
  | String c r =>
      if Ascii.eqb c sep then EmptyString :: Split r sep
      else match Split r sep with
           | f :: fs => String c f :: fs
           | [] => [String c EmptyString]
           end
  end.

(** The flags [config.Parse] declares, as the [flag] package hands them
    over ([-addr] and [-a] set the same field). *)
Record Flags : Type := mkFlags {
  flag_allow : option string;
  flag_addr : option string;
  flag_config : option string;
  flag_timeout : option Z;
  flag_version : option bool;
  flag_test : option bool
}.

(** How [Parse] ends: [os.Exit code], or the configuration. *)
Inductive outcome : Type :=
  | Exit (code : Z)
  | Parsed (cfg : Config).

Section WithLibs.

(** [strings.TrimSpace]. *)
Variable TrimSpace : string -> string.

(** [split]: a comma-separated string as a list; the empty string is the
    nil list. *)
Definition split (s : string) : list string :=
  if String.eqb s EmptyString then [] else TrimSpace <$> Split s ",".

(** [merge]: the file's value for the three fields it looks at, where the
    command line left the default. *)
Definition merge (dst src : Config) : Config :=
  mkConfig
    (if String.eqb (Addr dst) ":8080" && negb (String.eqb (Addr src) EmptyString)
     then Addr src else Addr dst)
    (match AllowedTargets dst, AllowedTargets src with
     | [], _ :: _ => AllowedTargets src
     | _, _ => AllowedTargets dst
     end)
    (if (ReadTimeout dst =? defaultTimeout) && negb (ReadTimeout src =? 0)
     then ReadTimeout src else ReadTimeout dst)
    (ShowVersion dst) (RunTest dst) (ConfigPath dst) (Verbose dst) (QUICAddr dst)
    (EnableWSS dst) (TCPPoolSize dst).

(** [Parse].  [loadFromFile] is what reading and decoding the file at a
    path gives, [None] for an error. *)
Definition Parse (f : Flags) (loadFromFile : string -> option Config) : outcome :=
  let cfg :=
    mkConfig (default ":8080" (flag_addr f)) [] (default defaultTimeout (flag_timeout f))
             (default false (flag_version f)) (default false (flag_test f))
             (default EmptyString (flag_config f)) EmptyString EmptyString false 0 in
  if ShowVersion cfg then Exit 0
  else
    let merged :=
      if negb (String.eqb (ConfigPath cfg) EmptyString) then
        match loadFromFile (ConfigPath cfg) with
        | None => None
        | Some fileCfg => Some (merge cfg fileCfg)
        end
      else Some cfg in
    match merged with
    | None => Exit 2
    | Some cfg =>
        let cfg :=
          mkConfig (Addr cfg) (split (default EmptyString (flag_allow f)))
                   (ReadTimeout cfg) (ShowVersion cfg) (RunTest cfg) (ConfigPath cfg)
                   (Verbose cfg) (QUICAddr cfg) (EnableWSS cfg) (TCPPoolSize cfg) in
        (* validate *)
        if negb (ContainsByte (Addr cfg) ":") then Exit 2 else Parsed cfg
    end.

(** X30.  What a configuration file cannot do.  When [Parse] returns a
    configuration, its allow-list is the one of the [-allow] flag (the
    file's list is overwritten, also by an absent flag), its listen address
    has a colon, an address given on the command line other than the
    default is kept, and the pool size, the WSS switch, the QUIC address
    and the log level are the zero values whatever the file says. *)
Theorem Parse_takes_little_from_the_file
    (f : Flags) (loadFromFile : string -> option Config) (cfg : Config) :
  Parse f loadFromFile = Parsed cfg ->
  AllowedTargets cfg = split (default EmptyString (flag_allow f))
  /\ ContainsByte (Addr cfg) ":" = true
  /\ (default ":8080" (flag_addr f) <> ":8080" -> Addr cfg = default ":8080" (flag_addr f))
  /\ TCPPoolSize cfg = 0 /\ EnableWSS cfg = false
  /\ QUICAddr cfg = EmptyString /\ Verbose cfg = EmptyString.
Proof.
  unfold Parse. cbn [ShowVersion ConfigPath].
  destruct (default false (flag_version f)); [discriminate|].
  destruct (negb (String.eqb (default EmptyString (flag_config f)) EmptyString)).
  - destruct (loadFromFile _) as [fileCfg|]; [|discriminate].
    cbn [merge Addr AllowedTargets ReadTimeout ShowVersion RunTest ConfigPath Verbose
           QUICAddr EnableWSS TCPPoolSize].
    destruct (negb (ContainsByte _ ":")) eqn:Hc; [discriminate|].
    intros [= <-]. cbn. apply negb_false_iff in Hc. repeat split; auto.
    intros Hne. destruct (String.eqb_spec (default ":8080" (flag_addr f)) ":8080");
      [contradiction | reflexivity].
  - cbn [Addr AllowedTargets ReadTimeout ShowVersion RunTest ConfigPath Verbose
           QUICAddr EnableWSS TCPPoolSize].
    destruct (negb (ContainsByte _ ":")) eqn:Hc; [discriminate|].
    intros [= <-]. cbn. apply negb_false_iff in Hc. repeat split; auto.
Qed.

End WithLibs.

(** [strings.TrimSpace] on text whose spaces are ASCII spaces. *)
Fixpoint trimLeft (s : string) : string :=
  match s with
  | String " " r => trimLeft r
  | _ => s
  end.

Fixpoint trimRight (s : string) : string :=
  match s with
  | EmptyString => EmptyString
  | String c r =>
      match trimRight r with
      | EmptyString => if Ascii.eqb c " " then EmptyString else String c EmptyString
      | r' => String c r'
      end
  end.

Definition trimAsciiSpaces (s : string) : string := trimRight (trimLeft s).

Lemma Parse_takes_little_from_the_file_witness :
  AllowedTargets
    (mkConfig ":9000" ["127.0.0.1:22"; "10.0.0.1:3306"] defaultTimeout false false
              "anylink.yaml" EmptyString EmptyString false 0)
  = split trimAsciiSpaces
      (default EmptyString
         (flag_allow (mkFlags (Some "127.0.0.1:22, 10.0.0.1:3306") None
                              (Some "anylink.yaml") None None None)))
  /\ ContainsByte ":9000" ":" = true
  /\ (default ":8080" (flag_addr (mkFlags (Some "127.0.0.1:22, 10.0.0.1:3306") None
                                          (Some "anylink.yaml") None None None))
      <> ":8080" ->
      ":9000"
      = default ":8080" (flag_addr (mkFlags (Some "127.0.0.1:22, 10.0.0.1:3306") None
                                            (Some "anylink.yaml") None None None)))
  /\ 0 = 0 /\ false = false /\ EmptyString = EmptyString /\ EmptyString = EmptyString.
Proof.
  apply (Parse_takes_little_from_the_file trimAsciiSpaces
           (mkFlags (Some "127.0.0.1:22, 10.0.0.1:3306") None (Some "anylink.yaml")
                    None None None)
           (fun _ => Some (mkConfig ":9000" ["192.168.0.1:80"] 0 false false EmptyString
                                    "trace" ":4443" true 16))
           (mkConfig ":9000" ["127.0.0.1:22"; "10.0.0.1:3306"] defaultTimeout false false
                     "anylink.yaml" EmptyString EmptyString false 0)).
  reflexivity.
Defined.

End ConfigParse.
